(** * The local connector of kubekey (pkg/connector/local_connector.go)

    A shallow embedding of [localConnector] and of its four operations
    [PutFile], [FetchFile], [ExecuteCommand] and [Info].

    The Go methods only sequence calls into the operating system, into the
    injected command provider and into the logger.  They are embedded as
    programs of a small free monad [io] whose instructions are exactly those
    calls; a [handler] gives the instructions a meaning over a world of type
    [W].  Statements that depend only on the control flow of the Go code are
    proved for every handler; statements that depend on what the operating
    system does are proved for every handler that obeys the stated law, and
    [MemOS] is an in-memory handler that obeys them. *)

From Stdlib Require Import Strings.Byte Strings.Ascii.
From stdpp Require Import base strings list gmap.

Local Open Scope Z_scope.

(** ** Go values *)

(** [[]byte] *)
Definition bytes := list byte.

#[global] Instance byte_eq_dec : EqDecision byte := Byte.byte_eq_dec.

(** The byte slice [[]byte("\n")]. *)
Definition newline : bytes := [x0a].

(** [string(b)] for a byte slice [b]. *)
Definition string_of_bytes (b : bytes) : string := String.string_of_list_byte b.

(** [fs.FileMode] is a [uint32]. *)
Definition FileMode := N.

(** [bytes.HasSuffix]: [len(s) >= len(suffix) && Equal(s[len(s)-len(suffix):], suffix)]. *)
Definition bytes_HasSuffix (s suffix : bytes) : bool :=
  bool_decide (length suffix ≤ length s)%nat
  && bool_decide (drop (length s - length suffix) s = suffix).

(** [bytes.TrimSuffix]: [s] without the trailing [suffix], or [s] itself when
    it does not end with [suffix]. *)
Definition bytes_TrimSuffix (s suffix : bytes) : bytes :=
  if bytes_HasSuffix s suffix then take (length s - length suffix) s else s.

(** ** Errors *)

Inductive errno := ENOENT | EACCES | ENOTDIR | EISDIR | EEXIST | EBADF | EIO | ENOSPC | EPIPE.

(** The non-nil values of Go's [error] that this file meets.
    [fmt_Errorf format e] is [fmt.Errorf(format, e)] for a [format] holding
    one [%w] verb: it keeps the format and wraps [e]. *)
Inductive err :=
| PathError (op path : string) (e : errno)
| ExitError (status : Z)
| context_Canceled
| context_DeadlineExceeded
| io_ErrShortWrite
| io_errInvalidWrite
| errors_New (text : string)
| fmt_Errorf (format : string) (wrapped : err).

(** Go's [error]: [None] is [nil]. *)
Abbreviation error := (option err).

(** [err != nil]. *)
Definition not_nil (e : error) : bool := if e is Some _ then true else false.

(** [errors.Unwrap]. *)
Definition errors_Unwrap (e : err) : error :=
  match e with
  | fmt_Errorf _ inner => Some inner
  | _ => None
  end.

(** [os.IsNotExist]: it looks through [*PathError] only, not through
    [fmt.Errorf] wrappers. *)
Definition os_IsNotExist (e : error) : bool :=
  match e with
  | Some (PathError _ _ ENOENT) => true
  | _ => false
  end.

(** [context.Context].  The connector never inspects a context, it only
    forwards it to the command provider. *)
Inductive context := ctx_Background | ctx_Cancelled | ctx_Expired.

(** [ctx.Err()]. *)
Definition ctx_Err (ctx : context) : error :=
  match ctx with
  | ctx_Background => None
  | ctx_Cancelled => Some context_Canceled
  | ctx_Expired => Some context_DeadlineExceeded
  end.

(** ** Readers and writers *)

(** [*os.File]: an open descriptor. *)
Definition File := nat.

(** What the successive [Read] calls on an open file deliver: chunks with a
    nil error, then a last chunk together with [io.EOF] ([None] here) or with
    a read error. *)
Inductive reads :=
| reads_more (chunk : bytes) (rest : reads)
| reads_last (chunk : bytes) (er : error).

Fixpoint reads_data (r : reads) : bytes :=
  match r with
  | reads_more chunk rest => chunk ++ reads_data rest
  | reads_last chunk _ => chunk
  end.

Fixpoint reads_err (r : reads) : error :=
  match r with
  | reads_more _ rest => reads_err rest
  | reads_last _ er => er
  end.

(** [io.Writer] on a writer in state [D]: [Write(p) (n int, err error)],
    and [ReadFrom(r) (n int64, err error)] for a writer that also
    implements [io.ReaderFrom].  [ReadFrom] is given what the reads of [r]
    deliver. *)
Class Writer (D : Type) := {
  Write : bytes → D → (Z * error) * D;
  ReadFrom : option (reads → D → (Z * error) * D);
}.

(** [bytes.Buffer]; [Bytes b] is [b.Bytes()].  Its [Write] appends and
    never fails; its [ReadFrom] appends all that is read and returns the
    read error, if any. *)
Record bytes_Buffer := Buffer { Bytes : bytes }.

#[global] Instance bytes_Buffer_Writer : Writer bytes_Buffer := {
  Write := λ p b, ((Z.of_nat (length p), None), Buffer (Bytes b ++ p));
  ReadFrom := Some (λ src b,
    ((Z.of_nat (length (reads_data src)), reads_err src), Buffer (Bytes b ++ reads_data src)));
}.

(** One turn of the loop of [io.Copy] on a chunk of [nr] bytes that [Read]
    returned: nothing is written for an empty chunk; a writer that reports
    more than it was given is an invalid write; a writer that takes less
    without an error is a short write. *)
Definition copy_chunk {D : Type} `{!Writer D} (dst : D) (chunk : bytes) : (Z * error) * D :=
  let nr := Z.of_nat (length chunk) in
  if bool_decide (0 < nr) then
    let '((nw, ew), dst') := Write chunk dst in
    let '(nw, ew) :=
      if bool_decide (nw < 0 ∨ nr < nw)
      then (0, if ew is None then Some io_errInvalidWrite else ew)
      else (nw, ew) in
    match ew with
    | Some e => ((nw, Some e), dst')
    | None => if bool_decide (nr ≠ nw) then ((nw, Some io_ErrShortWrite), dst')
              else ((nw, None), dst')
    end
  else ((0, None), dst).

(** The loop of [io.Copy], for a writer without [ReadFrom]: it stops at the
    first write error, at a read error, or at [io.EOF], which is not
    reported as an error. *)
Fixpoint copyBuffer {D : Type} `{!Writer D} (dst : D) (src : reads) (written : Z) : (Z * error) * D :=
  match src with
  | reads_more chunk rest =>
      match copy_chunk dst chunk with
      | ((nw, Some e), dst') => ((written + nw, Some e), dst')
      | ((nw, None), dst') => copyBuffer dst' rest (written + nw)
      end
  | reads_last chunk er =>
      match copy_chunk dst chunk with
      | ((nw, Some e), dst') => ((written + nw, Some e), dst')
      | ((nw, None), dst') => ((written + nw, er), dst')
      end
  end.

(** What [io.Copy(dst, src)] returns on a source whose reads deliver
    [src]: the copy is handed to [dst.ReadFrom] when [dst] has one, and is
    done by the loop otherwise.  (An [*os.File] source that has [WriteTo]
    falls back on this same copy.) *)
Definition copy_stream {D : Type} `{!Writer D} (dst : D) (src : reads) : (Z * error) * D :=
  match ReadFrom with
  | Some readFrom => readFrom src dst
  | None => copyBuffer dst src 0
  end.

(** The slices the loop of [io.Copy] hands to [Write], empty ones
    included (those are skipped). *)
Fixpoint reads_chunks (r : reads) : list bytes :=
  match r with
  | reads_more chunk rest => chunk :: reads_chunks rest
  | reads_last chunk _ => [chunk]
  end.

(** The writer after one [Write] of a slice that it took whole and
    without error; an empty slice is not written at all. *)
Definition full_write {D : Type} `{!Writer D} (d : D) (p : bytes) : option D :=
  if p is [] then Some d
  else match Write p d with
       | ((n, None), d') => if bool_decide (n = Z.of_nat (length p)) then Some d' else None
       | ((_, Some _), _) => None
       end.

(** The writer after taking the slices one after the other, each whole
    and without error. *)
Fixpoint feed {D : Type} `{!Writer D} (d : D) (slices : list bytes) : option D :=
  match slices with
  | [] => Some d
  | p :: rest =>
      match full_write d p with
      | Some d' => feed d' rest
      | None => None
      end
  end.

(** ** The calls the connector makes *)

Inductive call :=
| os_Stat (name : string)
| os_MkdirAll (path : string) (perm : FileMode)
| os_WriteFile (name : string) (data : bytes) (perm : FileMode)
| os_Open (name : string)
| file_Reads (f : File)
| file_Close (f : File)
| exec_CombinedOutput (ctx : context) (cmd : string) (args : list string)
| klog_ErrorS (e : error) (msg : string) (keysAndValues : list string)
| klog_InfoS (msg : string) (keysAndValues : list string).

(** What each call returns.  [os.Stat]'s [FileInfo] is dropped, as its only
    caller drops it. *)
Definition resp (c : call) : Type :=
  match c with
  | os_Stat _ | os_MkdirAll _ _ | os_WriteFile _ _ _ | file_Close _ => error
  | os_Open _ => File + err
  | file_Reads _ => reads
  | exec_CombinedOutput _ _ _ => bytes * error
  | klog_ErrorS _ _ _ | klog_InfoS _ _ => unit
  end.

(** Programs over these calls. *)
Inductive io (A : Type) : Type :=
| Ret (a : A)
| Vis (c : call) (k : resp c → io A).
Arguments Ret {A} a.
Arguments Vis {A} c k.

Fixpoint io_bind {A B} (f : A → io B) (m : io A) : io B :=
  match m with
  | Ret a => f a
  | Vis c k => Vis c (λ r, io_bind f (k r))
  end.

#[global] Instance io_MRet : MRet io := @Ret.
#[global] Instance io_MBind : MBind io := @io_bind.

Definition do (c : call) : io (resp c) := Vis c Ret.

(** [io.Copy(dst, file)]. *)
Definition io_Copy {D : Type} `{!Writer D} (dst : D) (file : File) : io ((Z * error) * D) :=
  rs ← do (file_Reads file);
  mret (copy_stream dst rs).

(** ** Running a program *)

(** A handler answers each call and moves the world. *)
Definition handler (W : Type) := ∀ c : call, W → resp c * W.

(** The answer to a call, whatever the call. *)
Inductive answer :=
| a_error (e : error)
| a_opened (r : File + err)
| a_reads (rs : reads)
| a_output (out : bytes) (e : error)
| a_unit.

Definition answer_of (c : call) : resp c → answer :=
  match c with
  | os_Stat _ | os_MkdirAll _ _ | os_WriteFile _ _ _ | file_Close _ => a_error
  | os_Open _ => a_opened
  | file_Reads _ => a_reads
  | exec_CombinedOutput _ _ _ => λ r, a_output r.1 r.2
  | klog_ErrorS _ _ _ | klog_InfoS _ _ => λ _, a_unit
  end.

(** A call with its answer. *)
Definition event : Type := call * answer.

(** [exec h m w]: the result of [m], the final world and the calls made, in
    order. *)
Fixpoint exec {W A} (h : handler W) (m : io A) (w : W) : A * W * list event :=
  match m with
  | Ret a => (a, w, [])
  | Vis c k =>
      let '(r, w1) := h c w in
      let '(a, w2, tr) := exec h (k r) w1 in
      (a, w2, (c, answer_of c r) :: tr)
  end.

Definition result {W A} (x : A * W * list event) : A := x.1.1.
Definition world {W A} (x : A * W * list event) : W := x.1.2.
Definition trace {W A} (x : A * W * list event) : list event := x.2.
Definition calls (tr : list event) : list call := fst <$> tr.

(** ** The connector *)

(** [exec.Interface], as far as the connector uses it:
    [CommandContext(ctx, cmd, args...).CombinedOutput()]. *)
Definition exec_Interface (W : Type) := context → string → list string → W → (bytes * error) * W.

(** [type localConnector struct { Cmd exec.Interface }] *)
Record localConnector (W : Type) := { Cmd : exec_Interface W }.
Arguments Cmd {W} _.

(** The handler a connector runs under: commands go to the provider the
    connector was built with, every other call to the host [os]. *)
Definition connector_handler {W} (c : localConnector W) (os : handler W) : handler W :=
  λ cl, match cl with
        | exec_CombinedOutput ctx cmd args => Cmd c ctx cmd args
        | other => os other
        end.

(** [any], for the values the fact document holds. *)
Inductive any :=
| any_string (s : string)
| any_map (m : gmap string string)
| any_slice (l : list (gmap string string)).

(** Go's statement [if err != nil { return r }], followed by [k]. *)
Notation "'if_err' err 'is' e 'return' r ; k" :=
  (match err with Some e => r | None => k end)
  (at level 10, err at level 9, e name, r at level 100, k at level 200,
   format "'[v' 'if_err'  err  'is'  e  'return'  r ; '/' k ']'").

Section Connector.

(** [runtime.GOOS] and [filepath.Dir] come with the platform; the two
    parsers are helpers of the package, kept outside this file: bytes and
    a separator to a mapping, and to a sequence of mappings. *)
Variable GOOS : string.
Variable filepath_Dir : string → string.
Variable convertBytesToMap : bytes → string → gmap string string.
Variable convertBytesToSlice : bytes → string → list (gmap string string).

Definition Init (ctx : context) : io error := mret None.

Definition Close (ctx : context) : io error := mret None.

Definition PutFile (ctx : context) (src : bytes) (dst : string) (mode : FileMode) : io error :=
  err ← do (os_Stat (filepath_Dir dst));
  if not_nil err && os_IsNotExist err then
    err ← do (os_MkdirAll (filepath_Dir dst) mode);
    if_err err is e return
      (do (klog_ErrorS (Some e) "Failed to create local dir" ["dst_file"; dst]);;
       mret (Some e));
    do (os_WriteFile dst src mode)
  else
    do (os_WriteFile dst src mode).

Definition FetchFile {D : Type} `{!Writer D} (ctx : context) (src : string) (dst : D)
  : io (error * D) :=
  opened ← do (os_Open src);
  match opened with
  | inr e =>
      do (klog_ErrorS (Some e) "Failed to read local file failed" ["src_file"; src]);;
      mret (Some e, dst)
  | inl file =>
      '((_, err), dst) ← io_Copy dst file;
      if_err err is e return
        (do (klog_ErrorS (Some e) "Failed to copy local file" ["src_file"; src]);;
         mret (Some e, dst));
      mret (None, dst)
  end.

Definition ExecuteCommand (ctx : context) (cmd : string) : io (bytes * error) :=
  do (klog_InfoS "exec local command" ["cmd"; cmd]);;
  do (exec_CombinedOutput ctx "/bin/sh" ["-c"; cmd]).

Definition Info (ctx : context) : io (option (gmap string (gmap string any)) * error) :=
  if bool_decide (GOOS = "linux") then
    let osVars : gmap string any := ∅ in
    '(err, osRelease) ← FetchFile ctx "/etc/os-release" (Buffer []);
    if_err err is e return mret (None, Some (fmt_Errorf "failed to fetch os-release: %w" e));
    let osVars := <["release" := any_map (convertBytesToMap (Bytes osRelease) "=")]> osVars in
    '(kernel, err) ← ExecuteCommand ctx "uname -r";
    if_err err is e return mret (None, Some (fmt_Errorf "get kernel version error: %w" e));
    let osVars := <["kernel_version" := any_string (string_of_bytes (bytes_TrimSuffix kernel newline))]> osVars in
    '(hn, err) ← ExecuteCommand ctx "hostname";
    if_err err is e return mret (None, Some (fmt_Errorf "get hostname error: %w" e));
    let osVars := <["hostname" := any_string (string_of_bytes (bytes_TrimSuffix hn newline))]> osVars in
    '(arch, err) ← ExecuteCommand ctx "arch";
    if_err err is e return mret (None, Some (fmt_Errorf "get arch error: %w" e));
    let osVars := <["architecture" := any_string (string_of_bytes (bytes_TrimSuffix arch newline))]> osVars in
    let procVars : gmap string any := ∅ in
    '(err, cpu) ← FetchFile ctx "/proc/cpuinfo" (Buffer []);
    if_err err is e return mret (None, Some (fmt_Errorf "get cpuinfo error: %w" e));
    let procVars := <["cpuInfo" := any_slice (convertBytesToSlice (Bytes cpu) ":")]> procVars in
    '(err, mem) ← FetchFile ctx "/proc/meminfo" (Buffer []);
    if_err err is e return mret (None, Some (fmt_Errorf "get meminfo error: %w" e));
    let procVars := <["memInfo" := any_map (convertBytesToMap (Bytes mem) ":")]> procVars in
    mret (Some (<["os" := osVars]> (<["process" := procVars]> ∅)), None)
  else
    do (klog_ErrorS None "Unsupported platform" ["platform"; GOOS]);;
    mret (None, None).

End Connector.

(** ** An in-memory host

    A small file system with descriptors, canned commands and a log, used
    to run the connector on concrete inputs. *)

Module MemOS.

Record World := {
  files : gmap string bytes;         (* regular files and their contents *)
  dirs : gmap string FileMode;       (* directories and their modes *)
  open_files : gmap File string;     (* open descriptors and their paths *)
  next_fd : File;
  commands : gmap string (bytes * error);  (* what [/bin/sh -c cmd] gives *)
  klog : list string;
}.

(** The text before the last slash of [p], if [p] has a slash. *)
Fixpoint before_last_slash (p : string) : option string :=
  match p with
  | EmptyString => None
  | String c rest =>
      match before_last_slash rest with
      | Some pre => Some (String c pre)
      | None => if bool_decide (c = "/"%char) then Some EmptyString else None
      end
  end.

(** The parent directory of a clean path, which is what [filepath.Dir]
    gives on such a path. *)
Definition parent (p : string) : string :=
  match before_last_slash p with
  | None => "."
  | Some EmptyString => "/"
  | Some d => d
  end.

(** [p] and its ancestors up to the root. *)
Fixpoint ancestors (fuel : nat) (p : string) : list string :=
  match fuel with
  | O => []
  | S fuel => if bool_decide (p = "/" ∨ p = ".") then [] else p :: ancestors fuel (parent p)
  end.

Definition stat (name : string) (w : World) : error :=
  if bool_decide (is_Some (dirs w !! name) ∨ is_Some (files w !! name)) then None
  else if bool_decide (is_Some (files w !! parent name))
  then Some (PathError "stat" name ENOTDIR)
  else Some (PathError "stat" name ENOENT).

Definition mkdirAll (path : string) (perm : FileMode) (w : World) : error * World :=
  let up := ancestors (String.length path) path in
  if bool_decide (Exists (λ d, is_Some (files w !! d)) up)
  then (Some (PathError "mkdir" path ENOTDIR), w)
  else (None,
        {| files := files w;
           dirs := foldr (λ d ds, if bool_decide (is_Some (ds !! d)) then ds else <[d := perm]> ds)
                         (dirs w) up;
           open_files := open_files w; next_fd := next_fd w;
           commands := commands w; klog := klog w |}).

Definition writeFile (name : string) (data : bytes) (w : World) : error * World :=
  if bool_decide (is_Some (dirs w !! name)) then (Some (PathError "open" name EISDIR), w)
  else if bool_decide (is_Some (dirs w !! parent name)) then
    (None,
     {| files := <[name := data]> (files w); dirs := dirs w;
        open_files := open_files w; next_fd := next_fd w;
        commands := commands w; klog := klog w |})
  else (Some (PathError "open" name ENOENT), w).

Definition open (name : string) (w : World) : (File + err) * World :=
  if bool_decide (is_Some (dirs w !! name) ∨ is_Some (files w !! name)) then
    (inl (next_fd w),
     {| files := files w; dirs := dirs w;
        open_files := <[next_fd w := name]> (open_files w); next_fd := S (next_fd w);
        commands := commands w; klog := klog w |})
  else (inr (PathError "open" name ENOENT), w).

Definition read_all (f : File) (w : World) : reads :=
  match open_files w !! f with
  | None => reads_last [] (Some (PathError "read" "" EBADF))
  | Some name =>
      match files w !! name with
      | Some data => reads_last data None
      | None => reads_last [] (Some (PathError "read" name EISDIR))
      end
  end.

Definition close (f : File) (w : World) : error * World :=
  match open_files w !! f with
  | None => (Some (PathError "close" "" EBADF), w)
  | Some _ =>
      (None,
       {| files := files w; dirs := dirs w;
          open_files := delete f (open_files w); next_fd := next_fd w;
          commands := commands w; klog := klog w |})
  end.

Definition log (msg : string) (w : World) : World :=
  {| files := files w; dirs := dirs w; open_files := open_files w;
     next_fd := next_fd w; commands := commands w; klog := klog w ++ [msg] |}.

(** A command provider in the manner of [os/exec]: a context that is
    already done is reported before anything runs; otherwise the shell
    command gives its canned output and status. *)
Definition provider : exec_Interface World :=
  λ ctx cmd args w,
    match ctx_Err ctx with
    | Some e => (([], Some e), w)
    | None =>
        match cmd, args with
        | "/bin/sh"%string, ["-c"%string; line] =>
            (default ([], Some (ExitError 127)) (commands w !! line), w)
        | _, _ => (([], Some (errors_New "executable file not found")), w)
        end
    end.

Definition host : handler World :=
  λ c, match c with
       | os_Stat name => λ w, (stat name w, w)
       | os_MkdirAll path perm => mkdirAll path perm
       | os_WriteFile name data perm => writeFile name data
       | os_Open name => open name
       | file_Reads f => λ w, (read_all f w, w)
       | file_Close f => close f
       | exec_CombinedOutput ctx cmd args => provider ctx cmd args
       | klog_ErrorS _ msg _ => λ w, (tt, log msg w)
       | klog_InfoS msg _ => λ w, (tt, log msg w)
       end.

Definition b (s : string) : bytes := String.list_byte_of_string s.

(** A Linux-like machine. *)
Definition linux_box : World :=
  {| files := {[ "/etc/os-release" := b "ID=ubuntu";
                 "/proc/cpuinfo" := b "processor: 0";
                 "/proc/meminfo" := b "MemTotal: 1024 kB";
                 "/etc/hosts" := b "127.0.0.1 localhost" ]};
     dirs := {[ "/" := 493%N; "/etc" := 493%N; "/proc" := 365%N; "/tmp" := 511%N ]};
     open_files := ∅;
     next_fd := 3%nat;
     commands := {[ "uname -r" := (b "6.8.0" ++ newline, None);
                    "hostname" := (b "node1" ++ newline, None);
                    "arch" := (b "x86_64" ++ newline, None);
                    "exit 3" := (b "boom", Some (ExitError 3)) ]};
     klog := [] |}.

End MemOS.

(** The Linux machine without the file or the command called [name]. *)
Definition box_without (name : string) : MemOS.World :=
  {| MemOS.files := delete name (MemOS.files MemOS.linux_box);
     MemOS.dirs := MemOS.dirs MemOS.linux_box;
     MemOS.open_files := ∅;
     MemOS.next_fd := 3%nat;
     MemOS.commands := delete name (MemOS.commands MemOS.linux_box);
     MemOS.klog := [] |}.

(** A writer whose other end is gone: every [Write] fails with [EPIPE].
    It has no [ReadFrom]. *)
Inductive closed_pipe := ClosedPipe.

#[global] Instance closed_pipe_Writer : Writer closed_pipe := {
  Write := λ p d, ((0, Some (PathError "write" "|1" EPIPE)), d);
  ReadFrom := None;
}.

(** A writer with room for [room] more bytes and no [ReadFrom].  A slice
    that fits is taken whole.  Of a slice that does not fit it takes what
    fits; a [strict] one then reports an error, the other reports none. *)
Record bounded := Bounded { held : bytes; room : nat; strict : bool }.

#[global] Instance bounded_Writer : Writer bounded := {
  Write := λ p d,
    if bool_decide (length p ≤ room d)%nat
    then ((Z.of_nat (length p), None),
          Bounded (held d ++ p) (room d - length p) (strict d))
    else ((Z.of_nat (room d),
           if strict d then Some (errors_New "no room") else None),
          Bounded (held d ++ take (room d) p) 0 (strict d));
  ReadFrom := None;
}.

(** A writer that takes every slice whole and keeps what it was given,
    through [Write] and through [ReadFrom] when it has one; [received]
    reads back everything it has taken so far. *)
Class Accepting (D : Type) `{!Writer D} (received : D → bytes) := {
  accepts : ∀ (p : bytes) (d : D),
    (Write p d).1 = (Z.of_nat (length p), None)
    ∧ received (Write p d).2 = received d ++ p;
  accepts_stream : ∀ readFrom, ReadFrom = Some readFrom → ∀ (src : reads) (d : D),
    (readFrom src d).1 = (Z.of_nat (length (reads_data src)), reads_err src)
    ∧ received (readFrom src d).2 = received d ++ reads_data src;
}.

(** [out] with one trailing newline (the byte 10) removed, if it has one. *)
Definition chomped (out trimmed : bytes) : Prop :=
  out = trimmed ++ [x0a] ∨ (trimmed = out ∧ ∀ line, out ≠ line ++ [x0a]).

(** ** What the host delivers for a fact source *)

Inductive source :=
| source_file (name : string)
| source_command (line : string).

(** The six sources of the Linux branch, in the order of the code. *)
Definition linux_sources : list source :=
  [ source_file "/etc/os-release";
    source_command "uname -r";
    source_command "hostname";
    source_command "arch";
    source_file "/proc/cpuinfo";
    source_file "/proc/meminfo" ].

(** Reading the file [name] from the host in world [w]: the host opens the
    path and delivers the reads of the descriptor it returned.  The result
    is the error, if the open or a read fails, with the bytes delivered;
    the world moves by the host's answers, the log line of a failure
    included. *)
Definition host_fetch {W : Type} (h : handler W) (name : string) (w : W)
  : (error * bytes) * W :=
  let '(opened, w1) := h (os_Open name) w in
  match opened with
  | inr e =>
      ((Some e, []),
       (h (klog_ErrorS (Some e) "Failed to read local file failed" ["src_file"; name]) w1).2)
  | inl f =>
      let '(rs, w2) := h (file_Reads f) w1 in
      match reads_err rs with
      | Some e =>
          ((Some e, reads_data rs),
           (h (klog_ErrorS (Some e) "Failed to copy local file" ["src_file"; name]) w2).2)
      | None => ((None, reads_data rs), w2)
      end
  end.

(** Running the shell command [line] on the host in world [w], after the
    log line that announces it: the provider's error and output. *)
Definition host_command {W : Type} (h : handler W) (ctx : context) (line : string) (w : W)
  : (error * bytes) * W :=
  let w1 := (h (klog_InfoS "exec local command" ["cmd"; line]) w).2 in
  let '((out, e), w2) := h (exec_CombinedOutput ctx "/bin/sh" ["-c"; line]) w1 in
  ((e, out), w2).

Definition host_read {W : Type} (h : handler W) (ctx : context) (s : source) (w : W)
  : (error * bytes) * W :=
  match s with
  | source_file name => host_fetch h name w
  | source_command line => host_command h ctx line w
  end.

(** The host delivers every source of [srcs] without error, one after the
    other from world [w]: the bytes delivered, in order, and the world
    reached. *)
Fixpoint host_gather {W : Type} (h : handler W) (ctx : context) (srcs : list source) (w : W)
  : option (list bytes * W) :=
  match srcs with
  | [] => Some ([], w)
  | s :: rest =>
      match host_read h ctx s w with
      | ((Some _, _), _) => None
      | ((None, out), w1) =>
          match host_gather h ctx rest w1 with
          | Some (outs, w2) => Some (out :: outs, w2)
          | None => None
          end
      end
  end.

(** Reading the sources in order from the host and stopping at the first
    that fails, with the message of its step; [mk] makes the document of
    the bytes of all of them. *)
Fixpoint host_run {W Doc : Type} (h : handler W) (ctx : context)
    (steps : list (source * string)) (mk : list bytes → Doc) (w : W)
  : (option Doc * error) * W :=
  match steps with
  | [] => ((Some (mk []), None), w)
  | (s, fmt) :: rest =>
      match host_read h ctx s w with
      | ((Some e, _), w1) => ((None, Some (fmt_Errorf fmt e)), w1)
      | ((None, out), w1) => host_run h ctx rest (λ outs, mk (out :: outs)) w1
      end
  end.

(** ** Observing a run of Info *)

(** The calls that fetch a fact: opening a file and running a command. *)
Definition is_source (c : call) : bool :=
  match c with
  | os_Open _ | exec_CombinedOutput _ _ _ => true
  | _ => false
  end.

Definition is_klog (c : call) : bool :=
  match c with
  | klog_ErrorS _ _ _ | klog_InfoS _ _ => true
  | _ => false
  end.

(** The six fact sources of the Linux branch, in the order of the code. *)
Definition fact_sources (ctx : context) : list call :=
  [ os_Open "/etc/os-release";
    exec_CombinedOutput ctx "/bin/sh" ["-c"; "uname -r"];
    exec_CombinedOutput ctx "/bin/sh" ["-c"; "hostname"];
    exec_CombinedOutput ctx "/bin/sh" ["-c"; "arch"];
    os_Open "/proc/cpuinfo";
    os_Open "/proc/meminfo" ].

(** The message each step wraps its error with. *)
Definition step_formats : list string :=
  [ "failed to fetch os-release: %w";
    "get kernel version error: %w";
    "get hostname error: %w";
    "get arch error: %w";
    "get cpuinfo error: %w";
    "get meminfo error: %w" ].

(** The error an answer carries when fetching a fact went wrong: a failed
    open, a failed read, a failed command. *)
Definition source_failure (ev : event) : error :=
  match ev.2 with
  | a_opened (inr e) => Some e
  | a_reads rs => reads_err rs
  | a_output _ e => e
  | _ => None
  end.

(** The bytes an answer delivers: what was read from a file, what a
    command printed. *)
Definition source_output (ev : event) : option bytes :=
  match ev.2 with
  | a_reads rs => Some (reads_data rs)
  | a_output out _ => Some out
  | _ => None
  end.

(** The first failing answer of a trace, with the events after it. *)
Fixpoint first_failure (tr : list event) : option (err * list event) :=
  match tr with
  | [] => None
  | ev :: rest =>
      match source_failure ev with
      | Some e => Some (e, rest)
      | None => first_failure rest
      end
  end.

(** The fact sources a run called, and the bytes they delivered. *)
Definition sources (tr : list event) : list call :=
  filter (λ c, is_source c = true) (calls tr).

Definition outputs (tr : list event) : list bytes := omap source_output tr.

(** A step on source [src] ended with error [e], or gave the bytes [out]. *)
Definition step_outcome (src : call) (e : error) (out : bytes) (tr : list event) : Prop :=
  sources tr = [src]
  ∧ match e with
    | Some e => ∃ after, first_failure tr = Some (e, after)
                         ∧ Forall (λ c, is_klog c = true) (calls after)
    | None => first_failure tr = None ∧ outputs tr = [out]
    end.

(** What a run over the sources [srcs] looks like, by its first failure:
    the error of step [k] wrapped in the message of step [k], after the
    first [k+1] sources and followed by log lines only; or a document made
    of the outputs of all the sources. *)
Definition run_outcome {Doc : Type} (srcs : list call) (fmts : list string)
    (mk : list bytes → Doc) (res : option Doc * error) (tr : list event) : Prop :=
  match first_failure tr with
  | Some (inner, after) =>
      ∃ (k : nat) (fmt : string),
        fmts !! k = Some fmt
        ∧ res = (None, Some (fmt_Errorf fmt inner))
        ∧ sources tr = take (S k) srcs
        ∧ Forall (λ c, is_klog c = true) (calls after)
  | None =>
      res = (Some (mk (outputs tr)), None) ∧ sources tr = srcs
      ∧ length (outputs tr) = length srcs
  end.

(** The six steps of the Linux branch: each source with its message. *)
Definition linux_steps : list (source * string) := zip linux_sources step_formats.

Section LinuxDocument.
Context (convertBytesToMap : bytes → string → gmap string string).
Context (convertBytesToSlice : bytes → string → list (gmap string string)).

(** The document of the Linux branch, from the bytes of the six sources. *)
Definition linux_osVars (rel kern hn arch : bytes) : gmap string any :=
  <["architecture" := any_string (string_of_bytes (bytes_TrimSuffix arch newline))]>
  (<["hostname" := any_string (string_of_bytes (bytes_TrimSuffix hn newline))]>
  (<["kernel_version" := any_string (string_of_bytes (bytes_TrimSuffix kern newline))]>
  (<["release" := any_map (convertBytesToMap rel "=")]> ∅))).

Definition linux_procVars (cpu mem : bytes) : gmap string any :=
  <["memInfo" := any_map (convertBytesToMap mem ":")]>
  (<["cpuInfo" := any_slice (convertBytesToSlice cpu ":")]> ∅).

Definition linux_document (rel kern hn arch cpu mem : bytes)
  : gmap string (gmap string any) :=
  <["os" := linux_osVars rel kern hn arch]>
  (<["process" := linux_procVars cpu mem]> ∅).

Definition linux_document_of (outs : list bytes) : gmap string (gmap string any) :=
  match outs with
  | [rel; kern; hn; arch; cpu; mem] => linux_document rel kern hn arch cpu mem
  | _ => ∅
  end.

End LinuxDocument.

(** ** More observations *)

(** What a reader finds at [name] in world [w]: the path opens, and its
    reads deliver [data] up to end of file. *)
Definition readable {W : Type} (h : handler W) (w : W) (name : string) (data : bytes) : Prop :=
  ∃ (f : File) (w1 : W),
    h (os_Open name) w = (inl f, w1)
    ∧ reads_err (h (file_Reads f) w1).1 = None
    ∧ reads_data (h (file_Reads f) w1).1 = data.

(** The calls [Info] makes under context [ctx]: it opens three fixed
    files and reads them, runs three fixed shell commands with the caller's
    context, and logs. *)
Definition info_call (ctx : context) (c : call) : Prop :=
  match c with
  | os_Open name => name ∈ ["/etc/os-release"; "/proc/cpuinfo"; "/proc/meminfo"]
  | exec_CombinedOutput ctx' cmd args =>
      ctx' = ctx ∧ cmd = "/bin/sh"
      ∧ ∃ line, args = ["-c"; line] ∧ line ∈ ["uname -r"; "hostname"; "arch"]
  | file_Reads _ | klog_ErrorS _ _ _ | klog_InfoS _ _ => True
  | os_Stat _ | os_MkdirAll _ _ | os_WriteFile _ _ _ | file_Close _ => False
  end.

(** The log lines among the calls of a run. *)
Definition logged (tr : list event) : list call :=
  filter (λ c, is_klog c = true) (calls tr).

(** A disk that delivers three bytes and then fails. *)
Definition flaky_disk : handler unit :=
  λ c, match c with
       | os_Open _ => λ w, (inl 3%nat, w)
       | file_Reads _ =>
           λ w, (reads_more (MemOS.b "abc")
                   (reads_last [] (Some (PathError "read" "/dev/sdb" EIO))), w)
       | os_Stat _ | os_MkdirAll _ _ | os_WriteFile _ _ _ | file_Close _ => λ w, (None, w)
       | exec_CombinedOutput _ _ _ => λ w, (([], None), w)
       | klog_ErrorS _ _ _ | klog_InfoS _ _ => λ w, (tt, w)
       end.

(** A Linux machine with an empty file. *)
Definition box_with_empty_file : MemOS.World :=
  {| MemOS.files := <["/tmp/empty" := []]> (MemOS.files MemOS.linux_box);
     MemOS.dirs := MemOS.dirs MemOS.linux_box;
     MemOS.open_files := ∅;
     MemOS.next_fd := 3%nat;
     MemOS.commands := MemOS.commands MemOS.linux_box;
     MemOS.klog := [] |}.

(** ** Proof steps *)

(** Case analysis on the next answer of the handler in the goal. *)
Ltac next_answer h :=
  match goal with
  | |- context [h ?c ?w] =>
      let r := fresh "r" in
      let w' := fresh "w" in
      let E := fresh "E" in
      destruct (h c w) as [r w'] eqn:E; simpl in r; cbn
  end.

(** Case analysis on membership in a list that is written out. *)
Ltac elem_of_explicit :=
  repeat match goal with
    | H : _ ∈ _ :: _ |- _ => apply elem_of_cons in H as [H|H]
    | H : _ ∈ [] |- _ => by apply elem_of_nil in H
    end.

(** * Properties *)

(** ** Running programs: basic facts *)

Section Exec.
Context {W : Type} (h : handler W).

Lemma exec_bind {A B} (m : io A) (f : A → io B) (w : W) :
  exec h (m ≫= f) w =
    let '(a, w1, t1) := exec h m w in
    let '(b, w2, t2) := exec h (f a) w1 in
    (b, w2, t1 ++ t2).
Proof.
  revert w. induction m as [a|c k IH]; intros w; simpl.
  - change (mbind f (Ret a)) with (f a).
    by destruct (exec h (f a) w) as [[??]?].
  - change (mbind f (Vis c k)) with (Vis c (λ r, k r ≫= f)). simpl.
    destruct (h c w) as [r w1]. rewrite IH.
    destruct (exec h (k r) w1) as [[a w2] t1].
    by destruct (exec h (f a) w2) as [[??]?].
Qed.

Lemma exec_do (c : call) (w : W) :
  exec h (do c) w = ((h c w).1, (h c w).2, [(c, answer_of c (h c w).1)]).
Proof. unfold do. simpl. by destruct (h c w). Qed.

End Exec.

(** ** Trimming and copying *)

Lemma bytes_HasSuffix_spec (s suffix : bytes) :
  bytes_HasSuffix s suffix = true ↔ ∃ pre, s = pre ++ suffix.
Proof.
  unfold bytes_HasSuffix. rewrite andb_true_iff, !bool_decide_eq_true. split.
  - intros [_ Hd]. exists (take (length s - length suffix) s).
    transitivity (take (length s - length suffix) s ++ drop (length s - length suffix) s).
    + by rewrite take_drop.
    + by rewrite Hd.
  - intros [pre ->]. rewrite length_app. split; [lia|].
    replace (length pre + length suffix - length suffix)%nat with (length pre) by lia.
    by rewrite drop_app_length.
Qed.

Lemma bytes_TrimSuffix_app (pre suffix : bytes) :
  bytes_TrimSuffix (pre ++ suffix) suffix = pre.
Proof.
  unfold bytes_TrimSuffix.
  rewrite (proj2 (bytes_HasSuffix_spec _ _)) by eauto.
  rewrite length_app.
  replace (length pre + length suffix - length suffix)%nat with (length pre) by lia.
  by rewrite take_app_length.
Qed.

Lemma bytes_TrimSuffix_chomped (out : bytes) :
  chomped out (bytes_TrimSuffix out newline).
Proof.
  destruct (bytes_HasSuffix out newline) eqn:Hs.
  - apply bytes_HasSuffix_spec in Hs as [pre ->]. left.
    by rewrite bytes_TrimSuffix_app.
  - right. unfold bytes_TrimSuffix. rewrite Hs. split; [done|].
    intros line ->. rewrite (proj2 (bytes_HasSuffix_spec _ _)) in Hs by eauto. done.
Qed.

#[global] Instance bytes_Buffer_Accepting : Accepting bytes_Buffer Bytes.
Proof.
  split.
  - by intros p [buf].
  - intros readFrom [= <-] src [buf]. done.
Qed.

Section Copy.
Context {D : Type} `{!Writer D} (received : D → bytes) `{!Accepting D received}.

Lemma copy_chunk_accepting (dst : D) (chunk : bytes) :
  (copy_chunk dst chunk).1 = (Z.of_nat (length chunk), None)
  ∧ received (copy_chunk dst chunk).2 = received dst ++ chunk.
Proof.
  unfold copy_chunk. case_bool_decide as Hlen.
  - destruct (accepts chunk dst) as [Hw Hr].
    destruct (Write chunk dst) as [[nw ew] dst']. simpl in *.
    injection Hw as -> ->.
    rewrite bool_decide_eq_false_2 by lia. simpl.
    by rewrite bool_decide_eq_false_2 by naive_solver.
  - destruct chunk; simpl in *; [|lia]. by rewrite app_nil_r.
Qed.

Lemma copyBuffer_accepting (dst : D) (src : reads) (written : Z) :
  (copyBuffer dst src written).1
    = (written + Z.of_nat (length (reads_data src)), reads_err src)
  ∧ received (copyBuffer dst src written).2 = received dst ++ reads_data src.
Proof.
  revert dst written. induction src as [chunk rest IH|chunk er]; intros dst written; simpl.
  - destruct (copy_chunk_accepting dst chunk) as [Hc Hr].
    destruct (copy_chunk dst chunk) as [[nw ew] dst']. simpl in *.
    injection Hc as -> ->.
    destruct (IH dst' (written + Z.of_nat (length chunk))) as [-> ->].
    rewrite Hr, length_app, <- app_assoc. split; [|done]. f_equal. lia.
  - destruct (copy_chunk_accepting dst chunk) as [Hc Hr].
    destruct (copy_chunk dst chunk) as [[nw ew] dst']. simpl in *.
    by injection Hc as -> ->.
Qed.

End Copy.

Lemma copy_stream_accepting {D : Type} `{!Writer D} (received : D → bytes)
    `{!Accepting D received} (dst : D) (src : reads) :
  (copy_stream dst src).1 = (Z.of_nat (length (reads_data src)), reads_err src)
  ∧ received (copy_stream dst src).2 = received dst ++ reads_data src.
Proof.
  unfold copy_stream. destruct ReadFrom as [readFrom|] eqn:Hrf.
  - by apply accepts_stream.
  - apply (copyBuffer_accepting received dst src 0).
Qed.

Lemma copy_stream_Buffer (buf : bytes) (src : reads) :
  copy_stream (Buffer buf) src
  = ((Z.of_nat (length (reads_data src)), reads_err src), Buffer (buf ++ reads_data src)).
Proof. reflexivity. Qed.

Lemma copyBuffer_Buffer (buf : bytes) (src : reads) (written : Z) :
  copyBuffer (Buffer buf) src written
  = ((written + Z.of_nat (length (reads_data src)), reads_err src),
     Buffer (buf ++ reads_data src)).
Proof.
  destruct (copyBuffer_accepting Bytes (Buffer buf) src written) as [H1 H2].
  destruct (copyBuffer (Buffer buf) src written) as [ne [buf']]. simpl in *.
  by rewrite H1, H2.
Qed.

(** ** ExecuteCommand *)

(** C7. [ExecuteCommand ctx cmd] on a connector built with provider [Cmd c]
    calls that provider once, with the caller's context, the program
    [/bin/sh] and the arguments [-c], [cmd], and returns what the provider
    returns, unchanged.  In particular, when the provider reports an error
    (such as a non-zero exit status) together with output, both are
    returned: the output is not dropped. *)
Theorem ExecuteCommand_forwards {W : Type} (c : localConnector W) (os : handler W)
    (ctx : context) (cmd : string) (w : W) :
  let w1 := (os (klog_InfoS "exec local command" ["cmd"; cmd]) w).2 in
  let r := exec (connector_handler c os) (ExecuteCommand ctx cmd) w in
  (result r, world r) = Cmd c ctx "/bin/sh" ["-c"; cmd] w1
  ∧ calls (trace r) = [klog_InfoS "exec local command" ["cmd"; cmd];
                       exec_CombinedOutput ctx "/bin/sh" ["-c"; cmd]]
  ∧ ∀ (out : bytes) (e : err),
      (Cmd c ctx "/bin/sh" ["-c"; cmd] w1).1 = (out, Some e) →
      result r = (out, Some e).
Proof.
  intros w1 r. subst w1 r. unfold ExecuteCommand. cbn.
  destruct (os (klog_InfoS "exec local command" ["cmd"; cmd]) w) as [[] w1]. cbn.
  destruct (Cmd c ctx "/bin/sh" ["-c"; cmd] w1) as [[out e] w2]. cbn.
  repeat split. by intros ?? [= -> ->].
Qed.

Lemma ExecuteCommand_forwards_witness :
  let c := {| Cmd := MemOS.provider |} in
  (Cmd c ctx_Background "/bin/sh" ["-c"; "exit 3"] MemOS.linux_box).1
    = (MemOS.b "boom", Some (ExitError 3))
  ∧ result (exec (connector_handler c MemOS.host)
                 (ExecuteCommand ctx_Background "exit 3") MemOS.linux_box)
    = (MemOS.b "boom", Some (ExitError 3)).
Proof.
  intros c. split; [reflexivity|].
  apply (ExecuteCommand_forwards c MemOS.host ctx_Background "exit 3" MemOS.linux_box).
  reflexivity.
Defined.

(** ** FetchFile *)

(** C6. When the source cannot be opened, [FetchFile] returns the error of
    [os.Open], which is not nil, and leaves the destination writer as it
    was: the only calls made are the failed open and a log line, so nothing
    is read and nothing is written. *)
Theorem FetchFile_open_fails {W D : Type} `{!Writer D} (h : handler W)
    (ctx : context) (src : string) (dst : D) (w w1 : W) (e : err) :
  h (os_Open src) w = (inr e, w1) →
  let r := exec h (FetchFile ctx src dst) w in
  result r = (Some e, dst)
  ∧ (result r).1 ≠ None
  ∧ calls (trace r)
    = [os_Open src; klog_ErrorS (Some e) "Failed to read local file failed" ["src_file"; src]].
Proof.
  intros Hopen r. subst r. unfold FetchFile. cbn. rewrite Hopen. cbn.
  destruct (h (klog_ErrorS _ _ _) w1) as [[] w2]. by cbn.
Qed.

Lemma FetchFile_open_fails_witness :
  let r := exec MemOS.host (FetchFile ctx_Background "/no/such/file" (Buffer (MemOS.b "kept")))
                MemOS.linux_box in
  result r = (Some (PathError "open" "/no/such/file" ENOENT), Buffer (MemOS.b "kept"))
  ∧ (result r).1 ≠ None
  ∧ calls (trace r)
    = [os_Open "/no/such/file";
       klog_ErrorS (Some (PathError "open" "/no/such/file" ENOENT))
                   "Failed to read local file failed" ["src_file"; "/no/such/file"]].
Proof.
  apply (FetchFile_open_fails MemOS.host ctx_Background "/no/such/file"
           (Buffer (MemOS.b "kept")) MemOS.linux_box MemOS.linux_box).
  reflexivity.
Defined.

Lemma reads_chunks_concat (rs : reads) : concat (reads_chunks rs) = reads_data rs.
Proof. induction rs as [chunk rest IH|chunk er]; simpl; [by rewrite IH|apply app_nil_r]. Qed.

Section CopyLoop.
Context {D : Type} `{!Writer D}.

Lemma copy_chunk_full (d d' : D) (p : bytes) :
  full_write d p = Some d' → copy_chunk d p = ((Z.of_nat (length p), None), d').
Proof.
  unfold full_write, copy_chunk. destruct p as [|x p]; [by intros [= <-]|].
  rewrite bool_decide_eq_true_2 by (simpl; lia).
  destruct (Write (x :: p) d) as [[nw [e|]] d'']; [done|].
  case_bool_decide as Hn; [|done]. intros [= <-]. subst nw.
  rewrite bool_decide_eq_false_2 by lia. simpl.
  by rewrite bool_decide_eq_false_2 by naive_solver.
Qed.

Lemma copy_chunk_error (d d2 : D) (p : bytes) (nw : Z) (e : err) :
  p ≠ [] → Write p d = ((nw, Some e), d2) →
  ∃ n, copy_chunk d p = ((n, Some e), d2).
Proof.
  intros Hp Hw. unfold copy_chunk.
  rewrite bool_decide_eq_true_2 by (destruct p; [done|simpl; lia]).
  rewrite Hw. case_bool_decide; simpl; eauto.
Qed.

Lemma copy_chunk_short (d d2 : D) (p : bytes) (nw : Z) :
  Write p d = ((nw, None), d2) → 0 ≤ nw < Z.of_nat (length p) →
  copy_chunk d p = ((nw, Some io_ErrShortWrite), d2).
Proof.
  intros Hw Hnw. unfold copy_chunk.
  rewrite bool_decide_eq_true_2 by lia. rewrite Hw.
  rewrite bool_decide_eq_false_2 by lia. simpl.
  by rewrite bool_decide_eq_true_2 by lia.
Qed.

Lemma copyBuffer_feeds (dst dst' : D) (src : reads) (written : Z) :
  feed dst (reads_chunks src) = Some dst' →
  copyBuffer dst src written
  = ((written + Z.of_nat (length (reads_data src)), reads_err src), dst').
Proof.
  revert dst written. induction src as [chunk rest IH|chunk er]; intros dst written; simpl.
  - destruct (full_write dst chunk) as [d1|] eqn:Hfull; [|done]. intros Hfeed.
    rewrite (copy_chunk_full _ _ _ Hfull), (IH _ _ Hfeed), length_app.
    do 2 f_equal. lia.
  - destruct (full_write dst chunk) as [d1|] eqn:Hfull; [|done]. intros [= <-].
    by rewrite (copy_chunk_full _ _ _ Hfull).
Qed.

Lemma copyBuffer_stops (dst d1 d2 : D) (src : reads) (written n : Z)
    (pre post : list bytes) (c : bytes) (e : err) :
  reads_chunks src = pre ++ c :: post →
  feed dst pre = Some d1 →
  copy_chunk d1 c = ((n, Some e), d2) →
  ∃ n', copyBuffer dst src written = ((n', Some e), d2).
Proof.
  revert dst written pre. induction src as [chunk rest IH|chunk er];
    intros dst written [|p pre] Hsplit Hfeed Hc; simpl in *.
  - injection Hsplit as -> _. injection Hfeed as ->. rewrite Hc. eauto.
  - injection Hsplit as -> Hrest.
    destruct (full_write dst p) as [d0|] eqn:Hfull; [|done].
    rewrite (copy_chunk_full _ _ _ Hfull). by eapply IH.
  - injection Hsplit as -> _. injection Hfeed as ->. rewrite Hc. eauto.
  - injection Hsplit as _ Hrest. by destruct pre.
Qed.

End CopyLoop.

Lemma FetchFile_result {W D : Type} `{!Writer D} (h : handler W)
    (ctx : context) (src : string) (dst : D) (w w1 w2 : W) (f : File) (rs : reads) :
  h (os_Open src) w = (inl f, w1) →
  h (file_Reads f) w1 = (rs, w2) →
  result (exec h (FetchFile ctx src dst) w) = ((copy_stream dst rs).1.2, (copy_stream dst rs).2).
Proof.
  intros Hopen Hreads. unfold FetchFile, io_Copy. cbn.
  rewrite Hopen. cbn. rewrite Hreads. cbn.
  destruct (copy_stream dst rs) as [[n [e|]] dst']; cbn; [|done]. by next_answer h.
Qed.

(** C5, as amended.  Let the source open and its reads deliver the bytes
    [b] up to end of file without a read error.  For a writer that has
    only [Write], [io.Copy] hands it the slices read, whose concatenation
    is [b], in order: when the writer takes each of them whole and without
    error, [FetchFile] returns no error and the writer is the one that took
    them all; when a [Write] returns an error, [FetchFile] returns that
    error, and when a [Write] takes fewer bytes than it was given without
    an error, [FetchFile] returns [io.ErrShortWrite]; in both cases the
    writer is left as that [Write] left it, so nothing more is written.
    For a writer that has [ReadFrom], [FetchFile] returns what its
    [ReadFrom] returns.  In particular, for every writer that takes all it
    is given, [FetchFile] returns no error and the writer has received
    exactly [b] after what it held. *)
Theorem FetchFile_streams {W D : Type} `{!Writer D} (h : handler W)
    (ctx : context) (src : string) (dst : D) (w w1 w2 : W) (f : File) (rs : reads) :
  h (os_Open src) w = (inl f, w1) →
  h (file_Reads f) w1 = (rs, w2) →
  reads_err rs = None →
  let r := exec h (FetchFile ctx src dst) w in
  let b := reads_data rs in
  concat (reads_chunks rs) = b
  ∧ (ReadFrom = None →
     (∀ dst', feed dst (reads_chunks rs) = Some dst' → result r = (None, dst'))
     ∧ (∀ pre c post d1 d2 nw e,
          reads_chunks rs = pre ++ c :: post → c ≠ [] → feed dst pre = Some d1 →
          Write c d1 = ((nw, Some e), d2) →
          result r = (Some e, d2))
     ∧ (∀ pre c post d1 d2 nw,
          reads_chunks rs = pre ++ c :: post → feed dst pre = Some d1 →
          Write c d1 = ((nw, None), d2) → 0 ≤ nw < Z.of_nat (length c) →
          result r = (Some io_ErrShortWrite, d2)))
  ∧ (∀ readFrom, ReadFrom = Some readFrom →
       result r = ((readFrom rs dst).1.2, (readFrom rs dst).2))
  ∧ (∀ received : D → bytes, Accepting D received →
       (result r).1 = None ∧ received (result r).2 = received dst ++ b).
Proof.
  intros Hopen Hreads Heof r b. subst r b.
  rewrite (FetchFile_result h ctx src dst w w1 w2 f rs Hopen Hreads).
  split_and!.
  - apply reads_chunks_concat.
  - intros Hloop. unfold copy_stream. rewrite Hloop. split_and!.
    + intros dst' Hfeed. by rewrite (copyBuffer_feeds _ _ _ _ Hfeed), Heof.
    + intros pre c post d1 d2 nw e Hsplit Hc Hfeed Hwrite.
      destruct (copy_chunk_error _ _ _ _ _ Hc Hwrite) as [n Hchunk].
      destruct (copyBuffer_stops dst d1 d2 rs 0 n pre post c e Hsplit Hfeed Hchunk)
        as [n' ->]. done.
    + intros pre c post d1 d2 nw Hsplit Hfeed Hwrite Hnw.
      pose proof (copy_chunk_short _ _ _ _ Hwrite Hnw) as Hchunk.
      destruct (copyBuffer_stops dst d1 d2 rs 0 nw pre post c _ Hsplit Hfeed Hchunk)
        as [n' ->]. done.
  - intros readFrom Hrf. unfold copy_stream. by rewrite Hrf.
  - intros received Hacc.
    destruct (copy_stream_accepting received dst rs) as [Hc Hr].
    cbn [fst snd]. by rewrite Hc, Hr.
Qed.

Lemma FetchFile_streams_witness :
  let fetch {D : Type} `{!Writer D} (dst : D) :=
    result (exec MemOS.host (FetchFile ctx_Background "/etc/hosts" dst) MemOS.linux_box) in
  fetch (Bounded [] 100 true) = (None, Bounded (MemOS.b "127.0.0.1 localhost") 81 true)
  ∧ fetch (Bounded [] 5 true)
    = (Some (errors_New "no room"), Bounded (MemOS.b "127.0") 0 true)
  ∧ fetch (Bounded [] 5 false) = (Some io_ErrShortWrite, Bounded (MemOS.b "127.0") 0 false)
  ∧ fetch (Buffer (MemOS.b "# ")) = (None, Buffer (MemOS.b "# 127.0.0.1 localhost"))
  ∧ Bytes (fetch (Buffer (MemOS.b "# "))).2 = MemOS.b "# " ++ MemOS.b "127.0.0.1 localhost".
Proof.
  intros fetch.
  pose proof (λ (D : Type) (Wr : Writer D) (dst : D),
    FetchFile_streams MemOS.host ctx_Background "/etc/hosts" dst
      MemOS.linux_box (MemOS.open "/etc/hosts" MemOS.linux_box).2
      (MemOS.open "/etc/hosts" MemOS.linux_box).2 3%nat
      (reads_last (MemOS.b "127.0.0.1 localhost") None) eq_refl eq_refl eq_refl) as Hfetch.
  subst fetch. cbv beta. split_and!.
  - destruct (Hfetch _ _ (Bounded [] 100 true)) as (_ & Hloop & _).
    destruct (Hloop eq_refl) as (Hfull & _). by apply Hfull.
  - destruct (Hfetch _ _ (Bounded [] 5 true)) as (_ & Hloop & _).
    destruct (Hloop eq_refl) as (_ & Herr & _).
    by eapply (Herr [] (MemOS.b "127.0.0.1 localhost") []).
  - destruct (Hfetch _ _ (Bounded [] 5 false)) as (_ & Hloop & _).
    destruct (Hloop eq_refl) as (_ & _ & Hshort).
    by eapply (Hshort [] (MemOS.b "127.0.0.1 localhost") [] _ _ 5).
  - destruct (Hfetch _ _ (Buffer (MemOS.b "# "))) as (_ & _ & Hrf & _).
    exact (Hrf _ eq_refl).
  - destruct (Hfetch _ _ (Buffer (MemOS.b "# "))) as (_ & _ & _ & Hacc).
    by apply (Hacc Bytes _).
Defined.

(** C5, as stated, fails: [/etc/hosts] is readable, yet [FetchFile] into a
    writer that rejects the write returns that writer's error. *)
Lemma FetchFile_rejecting_writer :
  MemOS.files MemOS.linux_box !! "/etc/hosts" = Some (MemOS.b "127.0.0.1 localhost")
  ∧ (result (exec MemOS.host (FetchFile ctx_Background "/etc/hosts" ClosedPipe)
                  MemOS.linux_box)).1
    = Some (PathError "write" "|1" EPIPE).
Proof. split; reflexivity. Qed.

(** ** PutFile *)

Lemma MemOS_writeFile_replaces (name : string) (data : bytes) (perm : FileMode)
    (w : MemOS.World) :
  (MemOS.host (os_WriteFile name data perm) w).1 = None →
  MemOS.files (MemOS.host (os_WriteFile name data perm) w).2 !! name = Some data.
Proof.
  simpl. unfold MemOS.writeFile.
  repeat case_bool_decide; simpl; try done.
  intros _. apply lookup_insert_eq.
Qed.

Section PutFileContract.
Context {W : Type} (filepath_Dir : string → string) (h : handler W).

(** What a path holds in a world, and the one thing asked of
    [os.WriteFile]: when it returns no error, the file holds the data. *)
Variable file_content : W → string → option bytes.
Hypothesis WriteFile_replaces : ∀ name data perm w,
  (h (os_WriteFile name data perm) w).1 = None →
  file_content (h (os_WriteFile name data perm) w).2 name = Some data.

(** C4. A [PutFile] that returns no error leaves the destination holding
    exactly the given bytes, whatever the path held before.  When the
    stat of the parent directory reports that it does not exist, the
    parent is created with [os.MkdirAll] and the same mode before any
    write.  An error of [os.MkdirAll] is the call's error and no write is
    attempted; an error of [os.WriteFile] is the call's error. *)
Theorem PutFile_contract (ctx : context) (b : bytes) (p : string) (m : FileMode) (w : W) :
  let r := exec h (PutFile filepath_Dir ctx b p m) w in
  let d := filepath_Dir p in
  (result r = None → file_content (world r) p = Some b)
  ∧ (os_IsNotExist (h (os_Stat d) w).1 = true →
     take 2 (calls (trace r)) = [os_Stat d; os_MkdirAll d m])
  ∧ (∀ e, (os_MkdirAll d m, a_error (Some e)) ∈ trace r →
          result r = Some e ∧ os_WriteFile p b m ∉ calls (trace r))
  ∧ (∀ e, (os_WriteFile p b m, a_error (Some e)) ∈ trace r → result r = Some e).
Proof.
  intros r d. subst r d. unfold PutFile. cbn.
  destruct (h (os_Stat (filepath_Dir p)) w) as [se w1]; simpl in se; cbn.
  assert (Hcond : not_nil se && os_IsNotExist se = os_IsNotExist se) by by destruct se.
  rewrite Hcond. clear Hcond. destruct (os_IsNotExist se) eqn:Hne; cbn.
  - destruct (h (os_MkdirAll (filepath_Dir p) m) w1) as [me w2]; simpl in me; cbn.
    destruct me as [me|]; cbn.
    + next_answer h. split_and!; try done.
      * intros e' He. elem_of_explicit; simplify_eq.
        split; [done|]. cbn. intros Hin. elem_of_explicit; by simplify_eq.
      * intros e' He. elem_of_explicit; by simplify_eq.
    + pose proof (WriteFile_replaces p b m w2) as Hw.
      destruct (h (os_WriteFile p b m) w2) as [we w3]; simpl in we, Hw; cbn.
      split_and!; try done.
      * intros e' He. elem_of_explicit; by simplify_eq.
      * intros e' He. elem_of_explicit; by simplify_eq.
  - pose proof (WriteFile_replaces p b m w1) as Hw.
    destruct (h (os_WriteFile p b m) w1) as [we w3]; simpl in we, Hw; cbn.
    split_and!; try done.
    + intros e' He. elem_of_explicit; by simplify_eq.
    + intros e' He. elem_of_explicit; by simplify_eq.
Qed.

End PutFileContract.

Lemma PutFile_contract_witness :
  let fresh := exec MemOS.host
                 (PutFile MemOS.parent ctx_Background (MemOS.b "hi") "/tmp/a/b/c.txt" 420%N)
                 MemOS.linux_box in
  let again := exec MemOS.host
                 (PutFile MemOS.parent ctx_Background (MemOS.b "::1 localhost") "/etc/hosts" 420%N)
                 MemOS.linux_box in
  MemOS.files (world fresh) !! "/tmp/a/b/c.txt" = Some (MemOS.b "hi")
  ∧ take 2 (calls (trace fresh)) = [os_Stat "/tmp/a/b"; os_MkdirAll "/tmp/a/b" 420%N]
  ∧ MemOS.files (world again) !! "/etc/hosts" = Some (MemOS.b "::1 localhost").
Proof.
  intros fresh again.
  destruct (PutFile_contract MemOS.parent MemOS.host (λ w name, MemOS.files w !! name)
              MemOS_writeFile_replaces ctx_Background (MemOS.b "hi") "/tmp/a/b/c.txt" 420%N
              MemOS.linux_box) as (Hfile & Hdir & _).
  destruct (PutFile_contract MemOS.parent MemOS.host (λ w name, MemOS.files w !! name)
              MemOS_writeFile_replaces ctx_Background (MemOS.b "::1 localhost") "/etc/hosts" 420%N
              MemOS.linux_box) as (Hagain & _).
  split_and!; [apply Hfile | apply Hdir | apply Hagain]; reflexivity.
Defined.

(** C10. When the stat of the parent directory fails with an error that is
    not "does not exist", [PutFile] makes no [os.MkdirAll] call and logs
    nothing: after the stat it goes straight to [os.WriteFile], and its
    result is the result of that write alone (nil when the write succeeds).
    The stat error is not reported. *)
Theorem PutFile_stat_error_ignored {W : Type} (filepath_Dir : string → string)
    (h : handler W) (ctx : context) (b : bytes) (p : string) (m : FileMode)
    (w w1 : W) (se : err) :
  h (os_Stat (filepath_Dir p)) w = (Some se, w1) →
  os_IsNotExist (Some se) = false →
  let r := exec h (PutFile filepath_Dir ctx b p m) w in
  calls (trace r) = [os_Stat (filepath_Dir p); os_WriteFile p b m]
  ∧ (result r, world r) = h (os_WriteFile p b m) w1.
Proof.
  intros Hstat Hother r. subst r. unfold PutFile. cbn.
  rewrite Hstat. cbn [not_nil andb]. rewrite Hother. cbn.
  by destruct (h (os_WriteFile p b m) w1) as [we w2].
Qed.

Lemma PutFile_stat_error_ignored_witness :
  let r := exec MemOS.host
             (PutFile MemOS.parent ctx_Background (MemOS.b "hi") "/etc/hosts/sub/c.txt" 420%N)
             MemOS.linux_box in
  calls (trace r) = [os_Stat "/etc/hosts/sub";
                     os_WriteFile "/etc/hosts/sub/c.txt" (MemOS.b "hi") 420%N]
  ∧ (result r, world r)
    = MemOS.host (os_WriteFile "/etc/hosts/sub/c.txt" (MemOS.b "hi") 420%N) MemOS.linux_box.
Proof.
  apply (PutFile_stat_error_ignored MemOS.parent MemOS.host ctx_Background (MemOS.b "hi")
           "/etc/hosts/sub/c.txt" 420%N MemOS.linux_box MemOS.linux_box
           (PathError "stat" "/etc/hosts/sub" ENOTDIR)); reflexivity.
Defined.

(** ** Info *)

Lemma first_failure_split (tr before after : list event) (ev : event) (inner : err) :
  tr = before ++ ev :: after →
  Forall (λ x, source_failure x = None) before →
  source_failure ev = Some inner →
  first_failure tr = Some (inner, after).
Proof.
  intros -> Hbefore Hev. induction Hbefore as [|x before Hx _ IH]; simpl.
  - by rewrite Hev.
  - by rewrite Hx.
Qed.

Lemma first_failure_None (tr : list event) :
  (∀ ev, ev ∈ tr → source_failure ev = None) → first_failure tr = None.
Proof.
  induction tr as [|ev tr IH]; intros Hall; simpl; [done|].
  rewrite (Hall ev) by (apply elem_of_cons; by left).
  apply IH. intros ev' Hin. apply Hall. apply elem_of_cons. by right.
Qed.

(** *** One fact source at a time *)

Lemma exec_mret {W A} (h : handler W) (a : A) (w : W) : exec h (mret a) w = (a, w, []).
Proof. reflexivity. Qed.

Lemma FetchFile_Buffer_run {W : Type} (h : handler W) (ctx : context) (src : string) (w : W) :
  ∃ e data w1 tr,
    exec h (FetchFile ctx src (Buffer [])) w = ((e, Buffer data), w1, tr)
    ∧ step_outcome (os_Open src) e data tr.
Proof.
  unfold FetchFile, io_Copy, step_outcome, sources, outputs. cbn.
  destruct (h (os_Open src) w) as [[f|e] w1]; cbn.
  - destruct (h (file_Reads f) w1) as [rs w2]; simpl in rs; cbn.
    destruct (reads_err rs) as [e|] eqn:Hrs; cbn.
    + next_answer h. eexists (Some e), _, _, _. split; [done|].
      cbn. rewrite Hrs. split; [done|]. eexists. split; [done|]. by repeat constructor.
    + eexists None, _, _, _. split; [done|]. cbn. by rewrite Hrs.
  - next_answer h. eexists (Some e), _, _, _. split; [done|].
    cbn. split; [done|]. eexists. split; [done|]. by repeat constructor.
Qed.

Lemma ExecuteCommand_run {W : Type} (h : handler W) (ctx : context) (cmd : string) (w : W) :
  ∃ out e w1 tr,
    exec h (ExecuteCommand ctx cmd) w = ((out, e), w1, tr)
    ∧ step_outcome (exec_CombinedOutput ctx "/bin/sh" ["-c"; cmd]) e out tr.
Proof.
  unfold ExecuteCommand, step_outcome, sources, outputs. cbn.
  next_answer h. next_answer h. destruct r0 as [out e].
  eexists out, e, _, _. split; [done|]. cbn.
  destruct e as [e|]; [|done]. split; [done|]. eexists. split; [done|]. constructor.
Qed.

Lemma first_failure_app (t1 t2 : list event) :
  first_failure (t1 ++ t2)
  = match first_failure t1 with
    | Some (e, after) => Some (e, after ++ t2)
    | None => first_failure t2
    end.
Proof.
  induction t1 as [|ev t1 IH]; simpl; [done|].
  by destruct (source_failure ev).
Qed.

Lemma sources_app (t1 t2 : list event) : sources (t1 ++ t2) = sources t1 ++ sources t2.
Proof. unfold sources, calls. by rewrite fmap_app, filter_app. Qed.

Lemma outputs_app (t1 t2 : list event) : outputs (t1 ++ t2) = outputs t1 ++ outputs t2.
Proof. apply omap_app. Qed.

Lemma run_outcome_done {Doc : Type} (mk : list bytes → Doc) (d : Doc) :
  d = mk [] → run_outcome [] [] mk (Some d, None) [].
Proof. by intros ->. Qed.

Lemma run_outcome_failed {Doc : Type} src srcs fmt fmts (mk : list bytes → Doc) e out tr :
  step_outcome src (Some e) out tr →
  run_outcome (src :: srcs) (fmt :: fmts) mk (None, Some (fmt_Errorf fmt e)) (tr ++ []).
Proof.
  intros [Hsrc (after & Hfail & Hlog)]. unfold run_outcome.
  rewrite app_nil_r, Hfail. exists 0%nat, fmt. by split_and!.
Qed.

Lemma run_outcome_step {Doc : Type} src srcs fmt fmts (mk : list bytes → Doc) out t1 res t2 :
  step_outcome src None out t1 →
  run_outcome srcs fmts (λ outs, mk (out :: outs)) res t2 →
  run_outcome (src :: srcs) (fmt :: fmts) mk res (t1 ++ t2).
Proof.
  intros [Hsrc [Hok Hout]]. unfold run_outcome.
  rewrite first_failure_app, Hok, sources_app, Hsrc, outputs_app, Hout.
  destruct (first_failure t2) as [[inner after]|].
  - intros (k & f & Hk & -> & Hs & Hlog). exists (S k), f. split_and!; try done.
    simpl. by rewrite Hs.
  - intros (-> & -> & Hlen). simpl. by rewrite Hlen.
Qed.

Section InfoLinux.
Context (convertBytesToMap : bytes → string → gmap string string).
Context (convertBytesToSlice : bytes → string → list (gmap string string)).

#[local] Arguments exec : simpl never.

(** One source of [Info]: run it, then split on its error. *)
Ltac info_source h :=
  rewrite exec_bind;
  let e := fresh "e" in
  let H := fresh "Hstep" in
  lazymatch goal with
  | |- context [exec h (FetchFile ?ctx ?src (Buffer [])) ?w] =>
      destruct (FetchFile_Buffer_run h ctx src w) as (e & ? & ? & ? & -> & H)
  | |- context [exec h (ExecuteCommand ?ctx ?cmd) ?w] =>
      destruct (ExecuteCommand_run h ctx cmd w) as (? & e & ? & ? & -> & H)
  end;
  destruct e as [e|]; cbv beta iota;
  [ rewrite exec_mret; cbn [result trace fst snd];
    repeat (eapply run_outcome_step; [eassumption|]);
    by eapply run_outcome_failed
  | ].

Lemma Info_linux_outcome {W : Type} (h : handler W) (ctx : context) (w : W) :
  let r := exec h (Info "linux" convertBytesToMap convertBytesToSlice ctx) w in
  run_outcome (fact_sources ctx) step_formats
    (linux_document_of convertBytesToMap convertBytesToSlice) (result r) (trace r).
Proof.
  intros r. subst r. unfold Info, fact_sources, step_formats.
  rewrite bool_decide_eq_true_2 by done.
  do 6 info_source h.
  rewrite exec_mret. cbn [result trace fst snd].
  repeat (eapply run_outcome_step; [eassumption|]).
  by apply run_outcome_done.
Qed.

End InfoLinux.

(** C2. On a platform other than Linux, [Info] makes no call but one log
    line: it opens no file and runs no command.  It returns a nil document
    and a nil error. *)
Theorem Info_unsupported_platform {W : Type} (GOOS : string)
    (convertBytesToMap : bytes → string → gmap string string)
    (convertBytesToSlice : bytes → string → list (gmap string string))
    (h : handler W) (ctx : context) (w : W) :
  GOOS ≠ "linux" →
  let r := exec h (Info GOOS convertBytesToMap convertBytesToSlice ctx) w in
  result r = (None, None)
  ∧ calls (trace r) = [klog_ErrorS None "Unsupported platform" ["platform"; GOOS]]
  ∧ sources (trace r) = [].
Proof.
  intros Hos r. subst r. unfold Info.
  rewrite bool_decide_eq_false_2 by done. cbn. by next_answer h.
Qed.

Lemma Info_unsupported_platform_witness :
  let r := exec MemOS.host (Info "darwin" (λ _ _, ∅) (λ _ _, []) ctx_Background)
                MemOS.linux_box in
  result r = (None, None)
  ∧ calls (trace r) = [klog_ErrorS None "Unsupported platform" ["platform"; "darwin"]]
  ∧ sources (trace r) = [].
Proof.
  apply (Info_unsupported_platform "darwin" (λ _ _, ∅) (λ _ _, []) MemOS.host
           ctx_Background MemOS.linux_box).
  discriminate.
Defined.

Lemma step_formats_NoDup : NoDup step_formats.
Proof. apply (bool_decide_unpack _). by vm_compute. Qed.

(** *** Info against what the host delivers *)

Lemma FetchFile_Buffer_host {W : Type} (h : handler W) (ctx : context) (name : string) (w : W) :
  let r := exec h (FetchFile ctx name (Buffer [])) w in
  host_fetch h name w = (((result r).1, Bytes (result r).2), world r).
Proof.
  unfold FetchFile, io_Copy, host_fetch. cbn.
  destruct (h (os_Open name) w) as [[f|e] w1]; cbn.
  - destruct (h (file_Reads f) w1) as [rs w2]; simpl in rs; cbn.
    destruct (reads_err rs) as [e|]; cbn; [|done]. by next_answer h.
  - by next_answer h.
Qed.

Lemma ExecuteCommand_host {W : Type} (h : handler W) (ctx : context) (line : string) (w : W) :
  let r := exec h (ExecuteCommand ctx line) w in
  host_command h ctx line w = (((result r).2, (result r).1), world r).
Proof.
  unfold ExecuteCommand, host_command. cbn.
  destruct (h (klog_InfoS "exec local command" ["cmd"; line]) w) as [[] w1]. cbn.
  by destruct (h (exec_CombinedOutput ctx "/bin/sh" ["-c"; line]) w1) as [[out e] w2].
Qed.

Lemma host_run_fails {W Doc : Type} (h : handler W) (ctx : context)
    (steps : list (source * string)) (mk : list bytes → Doc) (w w1 w2 : W)
    (k : nat) (s : source) (fmt : string) (outs : list bytes) (e : err) (partial : bytes) :
  steps !! k = Some (s, fmt) →
  host_gather h ctx (take k steps.*1) w = Some (outs, w1) →
  host_read h ctx s w1 = ((Some e, partial), w2) →
  host_run h ctx steps mk w = ((None, Some (fmt_Errorf fmt e)), w2).
Proof.
  revert steps mk w outs. induction k as [|k IH]; intros [|[s0 f0] steps] mk w outs Hk Hg Hs;
    try discriminate Hk; simpl in *.
  - injection Hk as -> ->. injection Hg as _ <-. by rewrite Hs.
  - destruct (host_read h ctx s0 w) as [[[e0|] out0] w0]; [discriminate|].
    match type of Hg with
    | match ?x with _ => _ end = _ => destruct x as [[outs0 w0']|] eqn:Hg0
    end; [|discriminate].
    injection Hg as _ ->. by eapply IH.
Qed.

Lemma host_run_succeeds {W Doc : Type} (h : handler W) (ctx : context)
    (steps : list (source * string)) (mk : list bytes → Doc) (w w' : W) (outs : list bytes) :
  host_gather h ctx steps.*1 w = Some (outs, w') →
  host_run h ctx steps mk w = ((Some (mk outs), None), w').
Proof.
  revert mk w outs. induction steps as [|[s0 f0] steps IH]; intros mk w outs Hg; simpl in *.
  - by injection Hg as <- <-.
  - destruct (host_read h ctx s0 w) as [[[e0|] out0] w0]; [discriminate|].
    match type of Hg with
    | match ?x with _ => _ end = _ => destruct x as [[outs0 w0']|] eqn:Hg0
    end; [|discriminate].
    injection Hg as <- <-. by rewrite (IH _ _ _ Hg0).
Qed.

Section InfoHost.
Context (convertBytesToMap : bytes → string → gmap string string).
Context (convertBytesToSlice : bytes → string → list (gmap string string)).

#[local] Arguments exec : simpl never.

(** One source of [Info] against the host: run it, then split on its error. *)
Ltac info_host_source h :=
  rewrite exec_bind;
  let e := fresh "e" in
  let Hs := fresh "Hs" in
  lazymatch goal with
  | |- context [exec h (FetchFile ?ctx ?src (Buffer [])) ?w] =>
      pose proof (FetchFile_Buffer_host h ctx src w) as Hs; cbv zeta in Hs;
      destruct (exec h (FetchFile ctx src (Buffer [])) w) as [[[e [?]] ?] ?]
  | |- context [exec h (ExecuteCommand ?ctx ?cmd) ?w] =>
      pose proof (ExecuteCommand_host h ctx cmd w) as Hs; cbv zeta in Hs;
      destruct (exec h (ExecuteCommand ctx cmd) w) as [[[? e] ?] ?]
  end;
  cbn [result world fst snd Bytes] in Hs;
  cbn [host_run host_read]; rewrite Hs; clear Hs;
  destruct e as [e|]; cbv beta iota;
  [ by rewrite exec_mret | ].

Lemma Info_linux_host {W : Type} (h : handler W) (ctx : context) (w : W) :
  let r := exec h (Info "linux" convertBytesToMap convertBytesToSlice ctx) w in
  (result r, world r)
  = host_run h ctx linux_steps (linux_document_of convertBytesToMap convertBytesToSlice) w.
Proof.
  intros r. subst r. unfold Info, linux_steps, linux_sources, step_formats.
  rewrite bool_decide_eq_true_2 by done. cbn [zip zip_with].
  do 6 info_host_source h.
  by rewrite exec_mret.
Qed.

End InfoHost.

(** C1. On Linux, take any of the six steps of [Info] (os-release,
    kernel version, hostname, architecture, cpuinfo, meminfo, in that
    order).  When the host delivers the sources of all the steps before it
    without error and fails the source of this step with error [e], [Info]
    returns a nil document and the error [fmt.Errorf(fmt, e)], where [fmt]
    is the message of this step, so the error wraps [e] and names the
    source; the run stops in the world the failing step left, and the fact
    sources it called are exactly those up to the failing step: none of
    the remaining steps runs.  No run returns both an error and a
    document. *)
Theorem Info_fail_fast {W : Type} (GOOS : string)
    (convertBytesToMap : bytes → string → gmap string string)
    (convertBytesToSlice : bytes → string → list (gmap string string))
    (h : handler W) (ctx : context) (w : W) :
  GOOS = "linux" →
  let r := exec h (Info GOOS convertBytesToMap convertBytesToSlice ctx) w in
  ((result r).2 ≠ None → (result r).1 = None)
  ∧ ∀ (k : nat) (s : source) (fmt : string) (outs : list bytes) (w1 w2 : W)
      (e : err) (partial : bytes),
      linux_sources !! k = Some s →
      step_formats !! k = Some fmt →
      host_gather h ctx (take k linux_sources) w = Some (outs, w1) →
      host_read h ctx s w1 = ((Some e, partial), w2) →
      result r = (None, Some (fmt_Errorf fmt e))
      ∧ errors_Unwrap (fmt_Errorf fmt e) = Some e
      ∧ world r = w2
      ∧ sources (trace r) = take (S k) (fact_sources ctx).
Proof.
  intros -> r.
  pose proof (Info_linux_outcome convertBytesToMap convertBytesToSlice h ctx w) as Hrun.
  pose proof (Info_linux_host convertBytesToMap convertBytesToSlice h ctx w) as Hhost.
  fold r in Hrun, Hhost. cbv zeta in Hrun, Hhost. unfold run_outcome in Hrun. split.
  - destruct (first_failure (trace r)) as [[inner after]|].
    + by destruct Hrun as (k & fmt & _ & -> & _).
    + by destruct Hrun as (-> & _).
  - intros k s fmt outs w1 w2 e partial Hs Hfmt Hg Hfail.
    assert (Hstep : linux_steps !! k = Some (s, fmt)).
    { do 6 (destruct k as [|k]; [by simplify_eq/=|]). done. }
    rewrite (host_run_fails h ctx linux_steps _ w w1 w2 k s fmt outs e partial Hstep Hg Hfail)
      in Hhost.
    injection Hhost as Hres Hworld. split_and!; try done.
    rewrite Hres in Hrun. destruct (first_failure (trace r)) as [[inner after]|].
    + destruct Hrun as (k' & fmt' & Hk' & [= -> ->] & Hsrc & _).
      by rewrite (NoDup_lookup _ _ _ _ step_formats_NoDup Hfmt Hk').
    + by destruct Hrun as (? & _).
Qed.

Lemma Info_fail_fast_witness :
  let run name :=
    result (exec MemOS.host (Info "linux" (λ _ _, ∅) (λ _ _, []) ctx_Background)
                 (box_without name)) in
  run "/etc/os-release"
    = (None, Some (fmt_Errorf "failed to fetch os-release: %w"
                     (PathError "open" "/etc/os-release" ENOENT)))
  ∧ run "uname -r" = (None, Some (fmt_Errorf "get kernel version error: %w" (ExitError 127)))
  ∧ run "hostname" = (None, Some (fmt_Errorf "get hostname error: %w" (ExitError 127)))
  ∧ run "arch" = (None, Some (fmt_Errorf "get arch error: %w" (ExitError 127)))
  ∧ run "/proc/cpuinfo"
    = (None, Some (fmt_Errorf "get cpuinfo error: %w" (PathError "open" "/proc/cpuinfo" ENOENT)))
  ∧ run "/proc/meminfo"
    = (None, Some (fmt_Errorf "get meminfo error: %w" (PathError "open" "/proc/meminfo" ENOENT))).
Proof.
  intros run.
  pose proof (λ name, proj2 (Info_fail_fast "linux" (λ _ _, ∅) (λ _ _, []) MemOS.host
                               ctx_Background (box_without name) eq_refl)) as Hstep.
  split_and!.
  - by edestruct (Hstep "/etc/os-release" 0%nat) as [Hres _]; [reflexivity..|exact Hres].
  - by edestruct (Hstep "uname -r" 1%nat) as [Hres _]; [reflexivity..|exact Hres].
  - by edestruct (Hstep "hostname" 2%nat) as [Hres _]; [reflexivity..|exact Hres].
  - by edestruct (Hstep "arch" 3%nat) as [Hres _]; [reflexivity..|exact Hres].
  - by edestruct (Hstep "/proc/cpuinfo" 4%nat) as [Hres _]; [reflexivity..|exact Hres].
  - by edestruct (Hstep "/proc/meminfo" 5%nat) as [Hres _]; [reflexivity..|exact Hres].
Defined.

(** C3. On Linux, when the host delivers the six sources without error,
    one after the other ([/etc/os-release], [uname -r], [hostname], [arch],
    [/proc/cpuinfo], [/proc/meminfo], each file read from the descriptor
    its own open returned), [Info] calls the six sources in that order and
    returns, in the world so reached, a nil error with a document whose
    keys are exactly [os] and [process].  Under [os]: [release] is the
    bytes of [/etc/os-release] parsed with separator [=], and
    [kernel_version], [hostname], [architecture] are the strings whose
    bytes are the outputs of the three commands without one trailing
    newline.  Under [process]: [cpuInfo] is the bytes of [/proc/cpuinfo]
    parsed into a sequence with separator [:], and [memInfo] the bytes of
    [/proc/meminfo] parsed with separator [:]. *)
Theorem Info_document {W : Type} (GOOS : string)
    (convertBytesToMap : bytes → string → gmap string string)
    (convertBytesToSlice : bytes → string → list (gmap string string))
    (h : handler W) (ctx : context) (w w1 w2 w3 w4 w5 w6 : W)
    (rel kern hn arch cpu mem : bytes) :
  GOOS = "linux" →
  host_fetch h "/etc/os-release" w = ((None, rel), w1) →
  host_command h ctx "uname -r" w1 = ((None, kern), w2) →
  host_command h ctx "hostname" w2 = ((None, hn), w3) →
  host_command h ctx "arch" w3 = ((None, arch), w4) →
  host_fetch h "/proc/cpuinfo" w4 = ((None, cpu), w5) →
  host_fetch h "/proc/meminfo" w5 = ((None, mem), w6) →
  let r := exec h (Info GOOS convertBytesToMap convertBytesToSlice ctx) w in
  ∃ (doc : gmap string (gmap string any)) (osVars procVars : gmap string any)
    (kernel_version hostname architecture : string),
    result r = (Some doc, None)
    ∧ world r = w6
    ∧ sources (trace r) = fact_sources ctx
    ∧ dom doc = {[ "os"; "process" ]}
    ∧ doc !! "os" = Some osVars
    ∧ doc !! "process" = Some procVars
    ∧ dom osVars = {[ "release"; "kernel_version"; "hostname"; "architecture" ]}
    ∧ osVars !! "release" = Some (any_map (convertBytesToMap rel "="))
    ∧ osVars !! "kernel_version" = Some (any_string kernel_version)
    ∧ chomped kern (String.list_byte_of_string kernel_version)
    ∧ osVars !! "hostname" = Some (any_string hostname)
    ∧ chomped hn (String.list_byte_of_string hostname)
    ∧ osVars !! "architecture" = Some (any_string architecture)
    ∧ chomped arch (String.list_byte_of_string architecture)
    ∧ dom procVars = {[ "cpuInfo"; "memInfo" ]}
    ∧ procVars !! "cpuInfo" = Some (any_slice (convertBytesToSlice cpu ":"))
    ∧ procVars !! "memInfo" = Some (any_map (convertBytesToMap mem ":")).
Proof.
  intros -> Hrel Hkern Hhn Harch Hcpu Hmem r.
  pose proof (Info_linux_outcome convertBytesToMap convertBytesToSlice h ctx w) as Hrun.
  pose proof (Info_linux_host convertBytesToMap convertBytesToSlice h ctx w) as Hhost.
  fold r in Hrun, Hhost. cbv zeta in Hrun, Hhost. unfold run_outcome in Hrun.
  assert (Hall : host_gather h ctx linux_steps.*1 w = Some ([rel; kern; hn; arch; cpu; mem], w6)).
  { cbn [linux_steps linux_sources step_formats zip zip_with fmap list_fmap fst
         host_gather host_read].
    by rewrite Hrel, Hkern, Hhn, Harch, Hcpu, Hmem. }
  rewrite (host_run_succeeds h ctx linux_steps _ w w6 _ Hall) in Hhost.
  injection Hhost as Hres Hworld. cbn [linux_document_of] in Hres.
  exists (linux_document convertBytesToMap convertBytesToSlice rel kern hn arch cpu mem),
    (linux_osVars convertBytesToMap rel kern hn arch),
    (linux_procVars convertBytesToMap convertBytesToSlice cpu mem),
    (string_of_bytes (bytes_TrimSuffix kern newline)),
    (string_of_bytes (bytes_TrimSuffix hn newline)),
    (string_of_bytes (bytes_TrimSuffix arch newline)).
  unfold string_of_bytes. rewrite !String.list_byte_of_string_of_list_byte.
  split_and!; try done; try apply bytes_TrimSuffix_chomped.
  rewrite Hres in Hrun. destruct (first_failure (trace r)) as [[inner after]|].
  - by destruct Hrun as (k & fmt & _ & ? & _).
  - by destruct Hrun as (_ & ? & _).
Qed.

Lemma Info_document_witness :
  let raw : bytes → string → gmap string string := λ bs sep, {[ sep := string_of_bytes bs ]} in
  let r := exec MemOS.host (Info "linux" raw (λ bs sep, [raw bs sep]) ctx_Background)
                MemOS.linux_box in
  ∃ (doc : gmap string (gmap string any)) (osVars procVars : gmap string any)
    (hostname : string),
    result r = (Some doc, None)
    ∧ dom doc = {[ "os"; "process" ]}
    ∧ doc !! "os" = Some osVars
    ∧ doc !! "process" = Some procVars
    ∧ osVars !! "release" = Some (any_map {[ "=" := "ID=ubuntu" ]})
    ∧ osVars !! "hostname" = Some (any_string hostname)
    ∧ chomped (MemOS.b "node1" ++ [x0a]) (String.list_byte_of_string hostname)
    ∧ procVars !! "cpuInfo" = Some (any_slice [ {[ ":" := "processor: 0" ]} ])
    ∧ procVars !! "memInfo" = Some (any_map {[ ":" := "MemTotal: 1024 kB" ]}).
Proof.
  intros raw r.
  pose (w1 := (host_fetch MemOS.host "/etc/os-release" MemOS.linux_box).2).
  pose (w2 := (host_command MemOS.host ctx_Background "uname -r" w1).2).
  pose (w3 := (host_command MemOS.host ctx_Background "hostname" w2).2).
  pose (w4 := (host_command MemOS.host ctx_Background "arch" w3).2).
  pose (w5 := (host_fetch MemOS.host "/proc/cpuinfo" w4).2).
  pose (w6 := (host_fetch MemOS.host "/proc/meminfo" w5).2).
  destruct (Info_document "linux" raw (λ bs sep, [raw bs sep]) MemOS.host ctx_Background
              MemOS.linux_box w1 w2 w3 w4 w5 w6
              (MemOS.b "ID=ubuntu") (MemOS.b "6.8.0" ++ newline) (MemOS.b "node1" ++ newline)
              (MemOS.b "x86_64" ++ newline) (MemOS.b "processor: 0")
              (MemOS.b "MemTotal: 1024 kB")
              eq_refl eq_refl eq_refl eq_refl eq_refl eq_refl eq_refl)
    as (doc & osVars & procVars & kv & hostname & ar
        & Hres & _ & _ & Hdom & Hos & Hproc & _ & Hrel & _ & _ & Hhn & Hchomp & _ & _ & _
        & Hcpu & Hmem).
  by exists doc, osVars, procVars, hostname.
Defined.

(** ** Descriptors *)

(** No run of [FetchFile] closes a file. *)
Lemma FetchFile_never_closes {W D : Type} `{!Writer D} (h : handler W)
    (ctx : context) (src : string) (dst : D) (w : W) (f : File) :
  file_Close f ∉ calls (trace (exec h (FetchFile ctx src dst) w)).
Proof.
  unfold FetchFile, io_Copy. cbn.
  destruct (h (os_Open src) w) as [[f'|e] w1]; cbn.
  - destruct (h (file_Reads f') w1) as [rs w2]; simpl in rs; cbn.
    destruct (copy_stream dst rs) as [[n [e|]] dst']; cbn.
    + next_answer h. intros Hin. elem_of_explicit; by simplify_eq.
    + intros Hin. elem_of_explicit; by simplify_eq.
  - next_answer h. intros Hin. elem_of_explicit; by simplify_eq.
Qed.

(** C9, on the code.  On a machine with no open descriptor, a successful
    [FetchFile] of [/etc/os-release] returns with the descriptor it opened
    still open: the run contains no [Close] of it. *)
Theorem FetchFile_leaves_file_open :
  let r := exec MemOS.host (FetchFile ctx_Background "/etc/os-release" (Buffer []))
                MemOS.linux_box in
  MemOS.open_files MemOS.linux_box = ∅
  ∧ (result r).1 = None
  ∧ calls (trace r) = [os_Open "/etc/os-release"; file_Reads 3%nat]
  ∧ MemOS.open_files (world r) !! 3%nat = Some "/etc/os-release".
Proof. by split_and!. Qed.

(** * Further properties of the connector *)

(** ** PutFile: when directories are made, and what is logged *)

(** X1. [PutFile] makes the parent directory only when the stat says it
    does not exist.  Otherwise, whether the stat succeeded or failed in
    another way, its calls are the stat and the write, and its result is
    the result of the write. *)
Theorem PutFile_mkdir_only_if_missing {W : Type} (filepath_Dir : string → string)
    (h : handler W) (ctx : context) (b : bytes) (p : string) (m : FileMode) (w : W) :
  let r := exec h (PutFile filepath_Dir ctx b p m) w in
  let d := filepath_Dir p in
  if os_IsNotExist (h (os_Stat d) w).1
  then take 2 (calls (trace r)) = [os_Stat d; os_MkdirAll d m]
  else calls (trace r) = [os_Stat d; os_WriteFile p b m]
       ∧ (result r, world r) = h (os_WriteFile p b m) (h (os_Stat d) w).2.
Proof.
  intros r d. subst r d. unfold PutFile. cbn.
  destruct (h (os_Stat (filepath_Dir p)) w) as [se w1]; simpl in se; cbn.
  assert (Hcond : not_nil se && os_IsNotExist se = os_IsNotExist se) by by destruct se.
  rewrite Hcond. clear Hcond. destruct (os_IsNotExist se); cbn.
  - destruct (h (os_MkdirAll (filepath_Dir p) m) w1) as [[me|] w2]; cbn.
    + by next_answer h.
    + by next_answer h.
  - by destruct (h (os_WriteFile p b m) w1) as [we w2].
Qed.

(** X2. [PutFile] logs a failure to make the directory, with the error it
    returns, and nothing else: a failed write is returned without any log
    line. *)
Theorem PutFile_logs_mkdir_failure_only {W : Type} (filepath_Dir : string → string)
    (h : handler W) (ctx : context) (b : bytes) (p : string) (m : FileMode) (w : W) :
  let r := exec h (PutFile filepath_Dir ctx b p m) w in
  (∀ e, (os_MkdirAll (filepath_Dir p) m, a_error (Some e)) ∈ trace r →
        logged (trace r) = [klog_ErrorS (Some e) "Failed to create local dir" ["dst_file"; p]])
  ∧ ((∀ e, (os_MkdirAll (filepath_Dir p) m, a_error (Some e)) ∉ trace r) →
     logged (trace r) = []).
Proof.
  intros r. subst r. unfold PutFile, logged. cbn.
  destruct (h (os_Stat (filepath_Dir p)) w) as [se w1]; simpl in se; cbn.
  assert (Hcond : not_nil se && os_IsNotExist se = os_IsNotExist se) by by destruct se.
  rewrite Hcond. clear Hcond. destruct (os_IsNotExist se); cbn.
  - destruct (h (os_MkdirAll (filepath_Dir p) m) w1) as [[me|] w2]; cbn.
    + next_answer h. split.
      * intros e' He. elem_of_explicit; by simplify_eq.
      * intros Hno. exfalso. apply (Hno me). apply elem_of_cons. right.
        apply elem_of_cons. by left.
    + next_answer h. split; [|done].
      intros e' He. elem_of_explicit; by simplify_eq.
  - next_answer h. split; [|done].
    intros e' He. elem_of_explicit; by simplify_eq.
Qed.

Lemma PutFile_logs_mkdir_failure_only_witness :
  let blocked := exec MemOS.host
                   (PutFile MemOS.parent ctx_Background (MemOS.b "hi") "/etc/hosts/a/b/c" 420%N)
                   MemOS.linux_box in
  let unwritable := exec MemOS.host
                      (PutFile MemOS.parent ctx_Background (MemOS.b "hi") "/etc/hosts/sub/c.txt" 420%N)
                      MemOS.linux_box in
  logged (trace blocked)
    = [klog_ErrorS (Some (PathError "mkdir" "/etc/hosts/a/b" ENOTDIR))
         "Failed to create local dir" ["dst_file"; "/etc/hosts/a/b/c"]]
  ∧ result unwritable = Some (PathError "open" "/etc/hosts/sub/c.txt" ENOENT)
  ∧ logged (trace unwritable) = [].
Proof.
  intros blocked unwritable.
  destruct (PutFile_logs_mkdir_failure_only MemOS.parent MemOS.host ctx_Background
              (MemOS.b "hi") "/etc/hosts/a/b/c" 420%N MemOS.linux_box) as [Hlog _].
  destruct (PutFile_logs_mkdir_failure_only MemOS.parent MemOS.host ctx_Background
              (MemOS.b "hi") "/etc/hosts/sub/c.txt" 420%N MemOS.linux_box) as [_ Hquiet].
  split_and!.
  - apply Hlog. apply elem_of_cons. right. apply elem_of_cons. by left.
  - reflexivity.
  - apply Hquiet. intros e He.
    assert (Htr : trace unwritable
                  = [ (os_Stat "/etc/hosts/sub",
                       a_error (Some (PathError "stat" "/etc/hosts/sub" ENOTDIR)));
                      (os_WriteFile "/etc/hosts/sub/c.txt" (MemOS.b "hi") 420%N,
                       a_error (Some (PathError "open" "/etc/hosts/sub/c.txt" ENOENT))) ])
      by reflexivity.
    fold unwritable in He. rewrite Htr in He. elem_of_explicit; discriminate.
Defined.

(** ** What the file operations do not look at *)

(** X3. [PutFile] and [FetchFile] never consult their context: under any
    two contexts, a cancelled one included, a run makes the same calls and
    gives the same result and world. *)
Theorem file_operations_ignore_context {W D : Type} `{!Writer D}
    (filepath_Dir : string → string) (h : handler W) (ctx ctx' : context)
    (b : bytes) (p : string) (m : FileMode) (dst : D) (w : W) :
  exec h (PutFile filepath_Dir ctx b p m) w = exec h (PutFile filepath_Dir ctx' b p m) w
  ∧ exec h (FetchFile ctx p dst) w = exec h (FetchFile ctx' p dst) w.
Proof. done. Qed.

(** X4. [PutFile] and [FetchFile] never reach the command provider: on a
    connector built with any provider they run exactly as on the host
    alone. *)
Theorem file_operations_ignore_provider {W D : Type} `{!Writer D}
    (filepath_Dir : string → string) (c : localConnector W) (os : handler W)
    (ctx : context) (b : bytes) (p : string) (m : FileMode) (dst : D) (w : W) :
  exec (connector_handler c os) (PutFile filepath_Dir ctx b p m) w
    = exec os (PutFile filepath_Dir ctx b p m) w
  ∧ exec (connector_handler c os) (FetchFile ctx p dst) w = exec os (FetchFile ctx p dst) w.
Proof.
  split.
  - unfold PutFile. cbn.
    destruct (os (os_Stat (filepath_Dir p)) w) as [se w1]; simpl in se; cbn.
    destruct (not_nil se && os_IsNotExist se); cbn; [|done].
    destruct (os (os_MkdirAll (filepath_Dir p) m) w1) as [[me|] w2]; by cbn.
  - unfold FetchFile, io_Copy. cbn.
    destruct (os (os_Open p) w) as [[f|e] w1]; cbn; [|done].
    destruct (os (file_Reads f) w1) as [rs w2]; simpl in rs; cbn.
    by destruct (copy_stream dst rs) as [[n [e|]] dst'].
Qed.

(** ** FetchFile: failures of the copy *)

(** X5. When the reads of an opened source fail after delivering some data,
    [FetchFile] returns the read error and logs it, and a writer that takes
    every write keeps the data delivered before the failure: nothing is
    rolled back. *)
Theorem FetchFile_read_error_keeps_data {W D : Type} `{!Writer D} (received : D → bytes)
    `{!Accepting D received} (h : handler W)
    (ctx : context) (src : string) (dst : D) (w w1 w2 : W) (f : File) (rs : reads) (e : err) :
  h (os_Open src) w = (inl f, w1) →
  h (file_Reads f) w1 = (rs, w2) →
  reads_err rs = Some e →
  let r := exec h (FetchFile ctx src dst) w in
  (result r).1 = Some e
  ∧ received (result r).2 = received dst ++ reads_data rs
  ∧ calls (trace r) = [os_Open src; file_Reads f;
                       klog_ErrorS (Some e) "Failed to copy local file" ["src_file"; src]].
Proof.
  intros Hopen Hreads Herr r. subst r. unfold FetchFile, io_Copy. cbn.
  rewrite Hopen. cbn. rewrite Hreads. cbn.
  destruct (copy_stream_accepting received dst rs) as [Hc Hr].
  destruct (copy_stream dst rs) as [[n e'] dst']. simpl in *.
  injection Hc as -> ->. rewrite Herr. cbn. by next_answer h.
Qed.

Lemma FetchFile_read_error_keeps_data_witness :
  let r := exec flaky_disk (FetchFile ctx_Background "/dev/sdb" (Buffer (MemOS.b "old"))) tt in
  (result r).1 = Some (PathError "read" "/dev/sdb" EIO)
  ∧ Bytes (result r).2
    = MemOS.b "old"
      ++ reads_data (reads_more (MemOS.b "abc")
                       (reads_last [] (Some (PathError "read" "/dev/sdb" EIO))))
  ∧ calls (trace r)
    = [os_Open "/dev/sdb"; file_Reads 3%nat;
       klog_ErrorS (Some (PathError "read" "/dev/sdb" EIO)) "Failed to copy local file"
                   ["src_file"; "/dev/sdb"]].
Proof.
  apply (FetchFile_read_error_keeps_data Bytes flaky_disk ctx_Background "/dev/sdb"
           (Buffer (MemOS.b "old")) tt tt tt 3%nat
           (reads_more (MemOS.b "abc")
              (reads_last [] (Some (PathError "read" "/dev/sdb" EIO))))
           (PathError "read" "/dev/sdb" EIO)); reflexivity.
Defined.

(** X6. [FetchFile] logs exactly the error it returns: a run that returns
    nil logs nothing, and a run that returns an error logs one line, which
    carries that error and the source path. *)
Theorem FetchFile_logs_returned_error {W D : Type} `{!Writer D} (h : handler W)
    (ctx : context) (src : string) (dst : D) (w : W) :
  let r := exec h (FetchFile ctx src dst) w in
  match (result r).1 with
  | None => logged (trace r) = []
  | Some e => ∃ msg, logged (trace r) = [klog_ErrorS (Some e) msg ["src_file"; src]]
  end.
Proof.
  intros r. subst r. unfold FetchFile, io_Copy, logged. cbn.
  destruct (h (os_Open src) w) as [[f|e] w1]; cbn.
  - destruct (h (file_Reads f) w1) as [rs w2]; simpl in rs; cbn.
    destruct (copy_stream dst rs) as [[n [e|]] dst']; cbn; [|done].
    next_answer h. by eexists.
  - next_answer h. by eexists.
Qed.

Lemma copyBuffer_no_data {D : Type} `{!Writer D} (dst : D) (src : reads) (written : Z) :
  reads_data src = [] → copyBuffer dst src written = ((written, reads_err src), dst).
Proof.
  assert (Hnil : copy_chunk dst [] = ((0, None), dst)) by reflexivity.
  revert written. induction src as [chunk rest IH|chunk er]; intros written Hdata; simpl in *.
  - apply app_eq_nil in Hdata as [-> Hrest].
    rewrite Hnil, (IH _ Hrest). by rewrite Z.add_0_r.
  - subst chunk. rewrite Hnil. by rewrite Z.add_0_r.
Qed.

(** X7. Fetching a source that delivers no bytes into a writer that has
    only [Write] (no [ReadFrom]) writes nothing: whatever that writer does
    with a write, even if it rejects every one, [FetchFile] returns nil and
    the writer is as it was. *)
Theorem FetchFile_empty_source {W D : Type} `{!Writer D} (h : handler W)
    (ctx : context) (src : string) (dst : D) (w w1 w2 : W) (f : File) (rs : reads) :
  ReadFrom = None →
  h (os_Open src) w = (inl f, w1) →
  h (file_Reads f) w1 = (rs, w2) →
  reads_err rs = None →
  reads_data rs = [] →
  result (exec h (FetchFile ctx src dst) w) = (None, dst).
Proof.
  intros Hloop Hopen Hreads Heof Hdata. unfold FetchFile, io_Copy, copy_stream. cbn.
  rewrite Hopen. cbn. rewrite Hreads. cbn.
  rewrite Hloop, (copyBuffer_no_data _ _ _ Hdata), Heof. by cbn.
Qed.

Lemma FetchFile_empty_source_witness :
  result (exec MemOS.host (FetchFile ctx_Background "/tmp/empty" ClosedPipe)
               box_with_empty_file)
  = (None, ClosedPipe).
Proof.
  apply (FetchFile_empty_source MemOS.host ctx_Background "/tmp/empty" ClosedPipe
           box_with_empty_file (MemOS.open "/tmp/empty" box_with_empty_file).2
           (MemOS.open "/tmp/empty" box_with_empty_file).2 3%nat (reads_last [] None));
    reflexivity.
Defined.

(** ** PutFile, then FetchFile *)

Lemma MemOS_written_is_readable (name : string) (data : bytes) (perm : FileMode)
    (w : MemOS.World) :
  (MemOS.host (os_WriteFile name data perm) w).1 = None →
  readable MemOS.host (MemOS.host (os_WriteFile name data perm) w).2 name data.
Proof.
  simpl. unfold MemOS.writeFile.
  repeat case_bool_decide; simpl; try done.
  intros _. unfold readable. simpl. unfold MemOS.open. simpl.
  rewrite bool_decide_eq_true_2 by (right; rewrite lookup_insert_eq; eauto).
  eexists _, _. split; [done|]. simpl. unfold MemOS.read_all. simpl.
  by rewrite !lookup_insert_eq.
Qed.

Section RoundTrip.
Context {W : Type} (filepath_Dir : string → string) (h : handler W).

(** What is asked of the host: a file that [os.WriteFile] wrote without
    error can be opened and read back as written. *)
Hypothesis written_is_readable : ∀ name data perm w,
  (h (os_WriteFile name data perm) w).1 = None →
  readable h (h (os_WriteFile name data perm) w).2 name data.

(** X8. On such a host, after a [PutFile] of [b] to [p] that returned nil,
    a [FetchFile] of [p] into an empty buffer returns nil and the buffer
    holds exactly [b]: [PutFile] does nothing after its write, and
    [FetchFile] nothing before its open. *)
Theorem PutFile_then_FetchFile (ctx ctx' : context) (b : bytes) (p : string)
    (m : FileMode) (w : W) :
  let put := exec h (PutFile filepath_Dir ctx b p m) w in
  result put = None →
  result (exec h (FetchFile ctx' p (Buffer [])) (world put)) = (None, Buffer b).
Proof.
  intros put Hput.
  assert (Hworld : readable h (world put) p b).
  { subst put. revert Hput. unfold PutFile. cbn.
    destruct (h (os_Stat (filepath_Dir p)) w) as [se w1]; simpl in se; cbn.
    destruct (not_nil se && os_IsNotExist se); cbn.
    - destruct (h (os_MkdirAll (filepath_Dir p) m) w1) as [[me|] w2]; cbn.
      + by next_answer h.
      + pose proof (written_is_readable p b m w2) as Hw.
        destruct (h (os_WriteFile p b m) w2) as [we w3]; simpl in we, Hw; cbn. exact Hw.
    - pose proof (written_is_readable p b m w1) as Hw.
      destruct (h (os_WriteFile p b m) w1) as [we w3]; simpl in we, Hw; cbn. exact Hw. }
  destruct Hworld as (f & w1 & Hopen & Heof & Hdata).
  clear Hput. generalize dependent (world put). intros w0 Hopen.
  unfold FetchFile, io_Copy. cbn. rewrite Hopen. cbn.
  destruct (h (file_Reads f) w1) as [rs w2]; simpl in rs, Heof, Hdata; cbn.
  rewrite Heof. cbn. by rewrite Hdata.
Qed.

End RoundTrip.

Lemma PutFile_then_FetchFile_witness :
  let put := exec MemOS.host
               (PutFile MemOS.parent ctx_Background (MemOS.b "hi") "/tmp/a/b/c.txt" 420%N)
               MemOS.linux_box in
  result (exec MemOS.host (FetchFile ctx_Cancelled "/tmp/a/b/c.txt" (Buffer [])) (world put))
  = (None, Buffer (MemOS.b "hi")).
Proof.
  apply (PutFile_then_FetchFile MemOS.parent MemOS.host MemOS_written_is_readable
           ctx_Background ctx_Cancelled (MemOS.b "hi") "/tmp/a/b/c.txt" 420%N MemOS.linux_box).
  reflexivity.
Defined.

(** ** Info: the calls it makes, and when it fails *)

Lemma exec_bind_calls {W A B : Type} (h : handler W) (P : call → Prop)
    (m : io A) (f : A → io B) (w : W) :
  Forall P (calls (trace (exec h m w))) →
  (∀ a w1, Forall P (calls (trace (exec h (f a) w1)))) →
  Forall P (calls (trace (exec h (m ≫= f) w))).
Proof.
  intros Hm Hf. rewrite exec_bind.
  destruct (exec h m w) as [[a w1] t1]. specialize (Hf a w1).
  destruct (exec h (f a) w1) as [[b w2] t2]. cbn in *.
  unfold calls in *. rewrite fmap_app. by apply Forall_app.
Qed.

Lemma FetchFile_info_calls {W D : Type} `{!Writer D} (h : handler W)
    (ctx : context) (src : string) (dst : D) (w : W) :
  src ∈ ["/etc/os-release"; "/proc/cpuinfo"; "/proc/meminfo"] →
  Forall (info_call ctx) (calls (trace (exec h (FetchFile ctx src dst) w))).
Proof.
  intros Hsrc. unfold FetchFile, io_Copy. cbn.
  destruct (h (os_Open src) w) as [[f|e] w1]; cbn.
  - destruct (h (file_Reads f) w1) as [rs w2]; simpl in rs; cbn.
    destruct (copy_stream dst rs) as [[n [e|]] dst']; cbn.
    + next_answer h. repeat (apply Forall_cons_2; [by cbn|]). apply Forall_nil_2.
    + repeat (apply Forall_cons_2; [by cbn|]). apply Forall_nil_2.
  - next_answer h. repeat (apply Forall_cons_2; [by cbn|]). apply Forall_nil_2.
Qed.

Lemma ExecuteCommand_info_calls {W : Type} (h : handler W)
    (ctx : context) (cmd : string) (w : W) :
  cmd ∈ ["uname -r"; "hostname"; "arch"] →
  Forall (info_call ctx) (calls (trace (exec h (ExecuteCommand ctx cmd) w))).
Proof.
  intros Hcmd. unfold ExecuteCommand. cbn.
  next_answer h. next_answer h.
  repeat (apply Forall_cons_2; [cbn; eauto|]). apply Forall_nil_2.
Qed.

(** X9. Whatever the platform and the answers of the host, [Info] only
    reads: every call of a run is an open of [/etc/os-release],
    [/proc/cpuinfo] or [/proc/meminfo], a read, a run of [uname -r],
    [hostname] or [arch] through [/bin/sh -c] with the caller's context, or
    a log line.  It never stats, writes, makes a directory or closes. *)
Theorem Info_only_reads {W : Type} (GOOS : string)
    (convertBytesToMap : bytes → string → gmap string string)
    (convertBytesToSlice : bytes → string → list (gmap string string))
    (h : handler W) (ctx : context) (w : W) :
  Forall (info_call ctx)
    (calls (trace (exec h (Info GOOS convertBytesToMap convertBytesToSlice ctx) w))).
Proof.
  unfold Info. case_bool_decide.
  - repeat first
      [ apply exec_bind_calls;
        [ first [ apply FetchFile_info_calls | apply ExecuteCommand_info_calls ];
          repeat first [ apply list_elem_of_here | apply list_elem_of_further ]
        | let e := fresh "e" in
          intros [? ?] ?; cbv beta iota;
          match goal with
          | |- context [match ?x with Some _ => _ | None => _ end] => destruct x
          end ]
      | apply Forall_nil_2 ].
  - cbn. next_answer h. repeat (apply Forall_cons_2; [by cbn|]). apply Forall_nil_2.
Qed.

(** X10. On Linux, [Info] fails exactly when a fact source fails.  A run
    that returns a nil error has no failing answer.  A run that returns an
    error returns [fmt.Errorf(fmt, inner)], where [inner] is the error of
    the first failing answer and [fmt] is the message of the step reached,
    a message no other step uses. *)
Theorem Info_error_iff_source_failed {W : Type}
    (convertBytesToMap : bytes → string → gmap string string)
    (convertBytesToSlice : bytes → string → list (gmap string string))
    (h : handler W) (ctx : context) (w : W) :
  let r := exec h (Info "linux" convertBytesToMap convertBytesToSlice ctx) w in
  match (result r).2 with
  | None => first_failure (trace r) = None
  | Some e =>
      ∃ (k : nat) (fmt : string) (inner : err) (after : list event),
        e = fmt_Errorf fmt inner
        ∧ first_failure (trace r) = Some (inner, after)
        ∧ step_formats !! k = Some fmt
        ∧ (∀ k', step_formats !! k' = Some fmt → k' = k)
        ∧ sources (trace r) = take (S k) (fact_sources ctx)
  end.
Proof.
  intros r.
  pose proof (Info_linux_outcome convertBytesToMap convertBytesToSlice h ctx w) as Hrun.
  fold r in Hrun. cbv zeta in Hrun. unfold run_outcome in Hrun.
  destruct (first_failure (trace r)) as [[inner after]|].
  - destruct Hrun as (k & fmt & Hk & -> & Hsrc & _). cbn.
    exists k, fmt, inner, after. split_and!; try done.
    intros k' Hk'. exact (NoDup_lookup _ _ _ _ step_formats_NoDup Hk' Hk).
  - by destruct Hrun as (-> & _).
Qed.

(** X11. [Info] returns a nil document with a nil error exactly on a
    platform other than Linux: on Linux every run returns a document or an
    error. *)
Theorem Info_nil_nil_iff_unsupported {W : Type} (GOOS : string)
    (convertBytesToMap : bytes → string → gmap string string)
    (convertBytesToSlice : bytes → string → list (gmap string string))
    (h : handler W) (ctx : context) (w : W) :
  result (exec h (Info GOOS convertBytesToMap convertBytesToSlice ctx) w) = (None, None)
  ↔ GOOS ≠ "linux".
Proof.
  split.
  - intros Hres ->.
    pose proof (Info_linux_outcome convertBytesToMap convertBytesToSlice h ctx w) as Hrun.
    cbv zeta in Hrun. unfold run_outcome in Hrun. rewrite Hres in Hrun.
    destruct (first_failure _) as [[inner after]|].
    + by destruct Hrun as (k & fmt & _ & ? & _).
    + by destruct Hrun as (? & _).
  - intros Hos. unfold Info. rewrite bool_decide_eq_false_2 by done.
    cbn. by next_answer h.
Qed.
